(** * CLIP search notebook: ingestion into the k-NN index and the query path

    A shallow embedding of [blog_clip.ipynb]: the inference script
    [code/clip_inference.py] written by the notebook, the ingestion loop
    ([# ingest_data_into_es]), the two encode functions and
    [search_products] / [display_images]. *)

From Stdlib Require Import Ascii QArith Qcanon Qround.
From stdpp Require Import base option list gmap strings sorting numbers pretty.

Local Open Scope string_scope.
Local Open Scope list_scope.

(** ** Exceptions and the effect monad *)

(** The Python exceptions the modelled code and its libraries can raise, plus
    the two errors that only the contracts of the specification name:
    [DimensionMismatch] of the vector store and [UnsupportedMediaType] of the
    model-serving endpoint. *)
Inductive exn :=
  | AssertionError (msg : string)
  | IndexError
  | KeyError (key : string)
  | FileNotFoundError (file : string)
  | JSONDecodeError
  | UnidentifiedImageError
  | AttributeError
  | UnboundLocalError
  | ZeroDivisionError
  | SyntaxError
  | TypeError
  | ValueError
  | DimensionMismatch
  | UnsupportedMediaType.

Inductive result (A : Type) :=
  | Ok (a : A)
  | Raise (e : exn).
Arguments Ok {A} a.
Arguments Raise {A} e.

(** A computation over a state [S] that either returns or raises; the state
    reached when the exception is raised is kept, as the side effects of a
    Python statement are. *)
Definition M (S A : Type) : Type := S → result A * S.

Global Instance M_ret {S} : MRet (M S) := λ A a s, (Ok a, s).
Global Instance M_bind {S} : MBind (M S) := λ A B f m s,
  match m s with
  | (Ok a, s') => f a s'
  | (Raise e, s') => (Raise e, s')
  end.

Definition raise {S A} (e : exn) : M S A := λ s, (Raise e, s).
Definition modify {S} (f : S → S) : M S unit := λ s, (Ok tt, f s).
Definition step {S A} (f : S → result A * S) : M S A := f.
Definition lift {S A} (r : result A) : M S A := λ s, (r, s).

(** [assert cond, msg] *)
Definition assert_ {S} (cond : bool) (msg : string) : M S unit :=
  if cond then mret tt else raise (AssertionError msg).

(** [for x in l: f x], stopping at the first exception. *)
Fixpoint for_each {S A} (f : A → M S unit) (l : list A) : M S unit :=
  match l with
  | [] => mret tt
  | x :: l' => _ ← f x; for_each f l'
  end.

(** [[f x for x in l]] built by [append] in a loop. *)
Fixpoint for_collect {S A B} (f : A → M S B) (l : list A) : M S (list B) :=
  match l with
  | [] => mret []
  | x :: l' => y ← f x; ys ← for_collect f l'; mret (y :: ys)
  end.

(** ** Data *)

(** Floats are idealised as rationals; a vector is a Python list of floats. *)
Abbreviation vector := (list Qc).

(** The JSON values that occur in document bodies and endpoint payloads: a
    string, a list of strings, a list of numbers, and any other value, kept
    as its text. *)
Inductive value :=
  | VStr (s : string)
  | VStrs (l : list string)
  | VVec (v : vector)
  | VOther (text : string).

Global Instance value_eq_dec : EqDecision value.
Proof. solve_decision. Defined.

(** A Python dict with string keys. *)
Abbreviation dict := (gmap string value).

(** One row of [dataset]: [meta] (item_id, item_name_in_en_us, main_image_id)
    merged with [image_meta] (image_id, height, width, path). *)
Record row := {
  item_id : string;
  item_name_in_en_us : string;
  main_image_id : string;
  image_id : string;
  height : Z;
  width : Z;
  path : string
}.

(** ** The vector store *)

(** The settings an index is created with: the two [settings] entries and the
    one mapped property, a [knn_vector] of a given dimension. *)
Record settings := {
  index_knn : bool;
  index_knn_space_type : string;
  knn_vector_property : string;
  knn_vector_dimension : nat
}.

Definition index_settings : settings :=
  {| index_knn := true;
     index_knn_space_type := "cosinesimil";
     knn_vector_property := "embeddings";
     knn_vector_dimension := 1024 |}.

Definition index_name : string := "clip-index".

(** The field that holds the vector of a record. *)
Definition vector_field : string := knn_vector_property index_settings.

(** The state of one index: its dimension and its records in insertion
    order, each an id with its document. *)
Record index := {
  dimension : nat;
  docs : list (string * dict)
}.

Definition index_ids (ix : index) : list string := (docs ix).*1.

(** Modelled from the spec: the Vector Store's [create_index], [upsert] and
    [knn_query]; the OpenSearch service is not part of the sources. An index
    is created empty with the dimension of its settings. *)
Definition es_indices_create (body : settings) : index :=
  {| dimension := knn_vector_dimension body; docs := [] |}.

(** Modelled from the spec: overwriting, on one record; the record with the
    id takes the new body, any other record stays. *)
Definition set_doc (id : string) (body : dict) (p : string * dict) : string * dict :=
  if decide (p.1 = id) then (id, body) else p.

(** Modelled from the spec: [upsert] "overwrites any existing record with the
    same id", and adds the record otherwise. *)
Definition upsert (id : string) (body : dict) (ds : list (string * dict))
  : list (string * dict) :=
  if decide (id ∈ ds.*1) then set_doc id body <$> ds else ds ++ [(id, body)].

(** The records of a batch, upserted one after the other. *)
Definition upsert_all (batch ds : list (string * dict)) : list (string * dict) :=
  foldl (λ acc p, upsert p.1 p.2 acc) ds batch.

(** The vector of a document, when its vector field holds one. *)
Definition body_vector (body : dict) : option vector :=
  match body !! vector_field with
  | Some (VVec v) => Some v
  | _ => None
  end.

(** Modelled from the spec: [upsert] "fails with DimensionMismatch if
    len(vector) != dimension". *)
Definition store_upsert (id : string) (body : dict) (ix : index) : result index :=
  match body_vector body with
  | Some v =>
      if decide (length v = dimension ix)
      then Ok {| dimension := dimension ix; docs := upsert id body (docs ix) |}
      else Raise DimensionMismatch
  | None => Ok {| dimension := dimension ix; docs := upsert id body (docs ix) |}
  end.

(** The request body [search_products] sends: [size], [_source.exclude] and
    the [knn] clause (field name, query vector, [k]). *)
Record search_body := {
  body_size : Z;
  source_exclude : list string;
  knn_field : string;
  knn_vector : vector;
  knn_k : Z
}.

(** One element of [res["hits"]["hits"]]. *)
Record hit := {
  _id : string;
  _score : Qc;
  _source : dict
}.

(** Modelled from the spec: the order of the results of [knn_query],
    "descending cosine similarity", "ties broken by ascending id". *)
Definition hit_order (h1 h2 : hit) : Prop :=
  (_score h2 < _score h1)%Qc ∨ (_score h1 = _score h2 ∧ String.le (_id h1) (_id h2)).

Global Instance hit_order_dec : RelDecision hit_order.
Proof. intros h1 h2. unfold hit_order. apply _. Defined.

(** Modelled from the spec: the projection of a record for a query, without
    the excluded fields. *)
Definition project (exclude : list string) (d : dict) : dict :=
  foldr delete d exclude.

Section Store.
(** The similarity kernel of the service (space type [cosinesimil]); its
    floating-point arithmetic is not modelled. *)
Variable cosinesimil : vector → vector → Qc.

(** Modelled from the spec: a record with a vector in the queried field is a
    candidate, scored by its similarity to the query vector. *)
Definition score_doc (field : string) (q : vector) (p : string * dict) : option hit :=
  match p.2 !! field with
  | Some (VVec v) => Some {| _id := p.1; _score := cosinesimil q v; _source := p.2 |}
  | _ => None
  end.

Definition project_hit (exclude : list string) (h : hit) : hit :=
  {| _id := _id h; _score := _score h; _source := project exclude (_source h) |}.

(** Modelled from the spec: the candidates in the order of the results. *)
Definition ranked (b : search_body) (ds : list (string * dict)) : list hit :=
  merge_sort hit_order (omap (score_doc (knn_field b) (knn_vector b)) ds).

(** Modelled from the spec: [knn_query] "returns up to k records ordered by
    descending cosine similarity to vector; ties broken by ascending id",
    "returns an empty sequence (not an error) when the index has zero
    records" and otherwise "fails with DimensionMismatch if the query
    vector's length disagrees with the index dimension". The request's
    [size] bounds the hits again and [_source.exclude] is the projection. *)
Definition knn_query (b : search_body) (ix : index) : result (list hit) :=
  if decide (docs ix = []) then Ok []
  else if decide (length (knn_vector b) = dimension ix) then
    Ok (project_hit (source_exclude b) <$>
          take (Z.to_nat (body_size b))
            (take (Z.to_nat (knn_k b)) (ranked b (docs ix))))
  else Raise DimensionMismatch.
End Store.

(** ** The inference script, [code/clip_inference.py] *)

Abbreviation bytes := string (only parsing).

(** A PIL image: its content, and the attribute [search_products] sets. *)
Record PilImage := {
  content : bytes;
  name_and_score : option string
}.

(** A request body on the wire: [json_dumps j] is the text [json.dumps]
    writes for the dict [j], which [json.loads] reads back as [j];
    [raw_bytes b] is a byte string given as such, of which nothing is known:
    it may be an image, JSON text, or neither. *)
Inductive request_body :=
  | json_dumps (j : dict)
  | raw_bytes (b : bytes).

(** What [json.loads] returns: a dict for a JSON object, and for any other
    JSON value (a list, a string, a number, [true], [false], [null]) a
    Python object that is no dict. *)
Inductive document :=
  | Object (j : dict)
  | NotObject.

(** [document["inputs"]]: subscripting with a string raises [KeyError] on a
    dict without the key and [TypeError] on every other parsed value. *)
Definition getitem_inputs (d : document) : result value :=
  match d with
  | Object j =>
      match j !! "inputs" with
      | Some data => Ok data
      | None => Raise (KeyError "inputs")
      end
  | NotObject => Raise TypeError
  end.

Inductive input_object :=
  | FromJson (v : value)
  | FromImage (img : PilImage).

(** What the endpoint process does, in order. *)
Inductive server_event :=
  | JsonLoads (body : request_body)
  | ImageOpen (body : request_body)
  | ClipTokenize (x : input_object)
  | Preprocess (x : input_object)
  | EncodeText
  | EncodeImage.

(** Appending to a trace. *)
Definition emit {E} (e : E) : M (list E) unit := modify (λ l, l ++ [e]).

Section ClipInference.
(** The CLIP library, PIL and the JSON parser are taken as given: what
    [json.loads] makes of a byte string, what PIL recognises as an image, the
    tokenizer, the image preprocessing (with its batch dimension) and the two
    encoders of the loaded model; their inputs are tensors. *)
Variable tensor : Type.
Variable json_parse : bytes → result document.
Variable pil_identify : bytes → bool.
Variable clip_tokenize : input_object → result tensor.
Variable preprocess_fn : input_object → result tensor.
Variable model_obj_encode_text : tensor → list vector.
Variable model_obj_encode_image : tensor → list vector.

(** [json.loads(request_body)] *)
Definition json_loads (body : request_body) : result document :=
  match body with
  | json_dumps j => Ok (Object j)
  | raw_bytes b => json_parse b
  end.

Definition Image_open (b : bytes) : result PilImage :=
  if pil_identify b then Ok {| content := b; name_and_score := None |}
  else Raise UnidentifiedImageError.

Definition Image_open_body (body : request_body) : result PilImage :=
  match body with
  | raw_bytes b => Image_open b
  | json_dumps _ => Raise UnidentifiedImageError
  end.

Definition input_fn (body : request_body) (request_content_type : string)
  : M (list server_event) input_object :=
  _ ← assert_
        (bool_decide (request_content_type ∈ ["application/json"; "application/x-image"]))
        (request_content_type +:+ " is an unknown type.");
  if decide (request_content_type = "application/json") then
    _ ← emit (JsonLoads body);
    j ← lift (json_loads body);
    data ← lift (getitem_inputs j);
    mret (FromJson data)
  else if decide (request_content_type = "application/x-image") then
    _ ← emit (ImageOpen body);
    data ← lift (Image_open_body body);
    mret (FromImage data)
  else raise UnboundLocalError.

Definition predict_fn (ENCODE_TYPE : string) (x : input_object)
  : M (list server_event) (list vector) :=
  _ ← assert_ (bool_decide (ENCODE_TYPE ∈ ["TEXT"; "IMAGE"]))
        (ENCODE_TYPE +:+ " is an unknown encode type.");
  input_ ←
    (if decide (ENCODE_TYPE = "TEXT") then
       _ ← emit (ClipTokenize x); lift (clip_tokenize x)
     else if decide (ENCODE_TYPE = "IMAGE") then
       _ ← emit (Preprocess x); lift (preprocess_fn x)
     else raise UnboundLocalError);
  if decide (ENCODE_TYPE = "TEXT") then
    _ ← emit EncodeText; mret (model_obj_encode_text input_)
  else if decide (ENCODE_TYPE = "IMAGE") then
    _ ← emit EncodeImage; mret (model_obj_encode_image input_)
  else raise UnboundLocalError.

Definition output_fn (predictions : list vector) (content_type : string)
  : M (list server_event) (list vector) :=
  _ ← assert_ (bool_decide (content_type = "application/json")) "";
  mret predictions.

(** The serving container chains the three handlers for one request; it is
    not part of the script. *)
Definition transform (ENCODE_TYPE : string) (body : request_body)
    (content_type accept : string) : M (list server_event) (list vector) :=
  x ← input_fn body content_type;
  prediction ← predict_fn ENCODE_TYPE x;
  output_fn prediction accept.
End ClipInference.

(** ** The notebook *)

(** The remote calls the notebook makes, in order. *)
Inductive call :=
  | EsIndex (index id : string) (body : dict)
  | EsSearch (index : string) (body : search_body)
  | S3Download (s3_uri local_path : string)
  | InvokeEndpoint (model_name content_type : string) (body : request_body).

(** The index behind the global client [es], the local files and the calls
    made so far. *)
Record world := {
  es : index;
  files : gmap string bytes;
  calls : list call
}.

(** Making a remote call appends it to the calls made. *)
Definition remote (c : call) : M world unit :=
  modify (λ w, {| es := es w; files := files w; calls := calls w ++ [c] |}).

Inductive image_or_path :=
  | AnImage (img : PilImage)
  | APath (p : string).

Definition s3_data_root : string := "s3://amazon-berkeley-objects/images/small/".

(** The expression [f"item_id == '{item_id}'"] that is handed to
    [dataset.query]: the id is pasted between the quotes as it is. *)
Definition item_id_query (iid : string) : string :=
  "item_id == '" +:+ iid +:+ "'".

Definition search_request (embedding : vector) (k : Z) : search_body :=
  {| body_size := k;
     source_exclude := ["embeddings"];
     knn_field := "embeddings";
     knn_vector := embedding;
     knn_k := k |}.

Section Notebook.
(** The notebook's globals [dataset] and [embeddings], the objects of the
    public bucket, and the library functions taken as given. Of these,
    [DataFrame_query expr frame] is pandas' [frame.query(expr).index]: the
    index labels of the rows of the frame that the expression selects, in
    the order of the frame, or the exception that parsing or evaluating the
    expression raises. The frame is numbered from 0, so a label is a
    position. *)
Variable dataset : list row.
Variable embeddings : list vector.
Variable DataFrame_query : string → list row → result (list nat).
Variable s3_objects : string → option bytes.
Variable Path_name : string → string.
Variable float_str : Qc → string.
Variable cosinesimil : vector → vector → Qc.
Variable tensor : Type.
Variable json_parse : bytes → result document.
Variable pil_identify : bytes → bool.
Variable clip_tokenize : input_object → result tensor.
Variable preprocess_fn : input_object → result tensor.
Variable model_obj_encode_text : tensor → list vector.
Variable model_obj_encode_image : tensor → list vector.

(** [es.index(index=index_name, id=..., body=...)] *)
Definition es_index (id : string) (body : dict) : M world unit :=
  _ ← remote (EsIndex index_name id body);
  step (λ w, match store_upsert id body (es w) with
             | Ok ix => (Ok tt, {| es := ix; files := files w; calls := calls w |})
             | Raise e => (Raise e, w)
             end).

(** [es.search(index=index_name, body=body)["hits"]["hits"]] *)
Definition es_search (body : search_body) : M world (list hit) :=
  _ ← remote (EsSearch index_name body);
  step (λ w, (knn_query cosinesimil body (es w), w)).

(** [s3down.download(s3_uri, local_path)]: the object, when there is one,
    lands in [local_path] under its own file name. *)
Definition s3down_download (s3_uri local_path : string) : M world unit :=
  _ ← remote (S3Download s3_uri local_path);
  match s3_objects s3_uri with
  | Some b =>
      modify (λ w, {| es := es w;
                      files := <[local_path +:+ "/" +:+ Path_name s3_uri := b]> (files w);
                      calls := calls w |})
  | None => mret tt
  end.

(** [open(file_name, "rb").read()] *)
Definition read_file (file_name : string) : M world bytes :=
  step (λ w, match files w !! file_name with
             | Some b => (Ok b, w)
             | None => (Raise (FileNotFoundError file_name), w)
             end).

(** [res[0]] *)
Definition first {A} (res : list A) : M world A :=
  match res with
  | x :: _ => mret x
  | [] => raise IndexError
  end.

(** [dataset.iloc[item_idx]] *)
Definition dataset_iloc (item_idx : nat) : M world row :=
  match dataset !! item_idx with
  | Some record => mret record
  | None => raise IndexError
  end.

(** The id is pasted into the query expression; [.index[0]] is the label of
    the first row the query selects, an [IndexError] when it selects none,
    and [dataset.iloc[item_idx]] is read for the path (and again, with the
    same result, for the name). *)
Definition get_image_from_item_id (iid : string) (return_image : bool)
  : M world (image_or_path * string) :=
  selected ← lift (DataFrame_query (item_id_query iid) dataset);
  item_idx ← first selected;
  record ← dataset_iloc item_idx;
  let s3_path := path record in
  let local_data_root := "./data/images" in
  let local_file_name := Path_name s3_path in
  _ ← s3down_download (s3_data_root +:+ s3_path) local_data_root;
  let local_image_path := local_data_root +:+ "/" +:+ local_file_name in
  if return_image then
    b ← read_file local_image_path;
    img ← lift (Image_open pil_identify b);
    mret (AnImage img, item_name_in_en_us record)
  else mret (APath local_image_path, item_name_in_en_us record).

(** The row [get_image_from_item_id] reads for an id, or the exception it
    raises before it downloads anything. *)
Definition queried_row (iid : string) : result row :=
  match DataFrame_query (item_id_query iid) dataset with
  | Ok (item_idx :: _) =>
      match dataset !! item_idx with
      | Some record => Ok record
      | None => Raise IndexError
      end
  | Ok [] => Raise IndexError
  | Raise e => Raise e
  end.

(** *** Ingestion *)

(** The [body] the loop [# ingest_data_into_es] builds for a record. *)
Definition ingest_body (record : row) (e : vector) : dict :=
  <["embeddings" := VVec e]> {["item_name_in_en_us" := VStr (item_name_in_en_us record)]}.

(** One turn of the loop, for [p = (idx, record)]. *)
Definition ingest_row (p : nat * row) : M world unit :=
  match embeddings !! p.1 with
  | None => raise IndexError
  | Some e => es_index (item_id p.2) (ingest_body p.2 e)
  end.

(** [dataset.iterrows()] numbers the rows of the merged frame from 0. *)
Definition iterrows (rows : list row) : list (nat * row) := imap pair rows.

(** The loop of the cell. Nothing surrounds its body and it yields no value;
    the search that follows it in the cell only asserts that the index is not
    empty. *)
Definition ingest_data_into_es : M world unit :=
  for_each ingest_row (iterrows dataset).

(** *** Encoding a query *)

(** [predictor.predict(data)]: one request to the endpoint of the model,
    deployed with its [ENCODE_TYPE], answered by the inference script. *)
Definition predictor_predict (model_name ENCODE_TYPE content_type : string)
    (body : request_body) : M world (list vector) :=
  _ ← remote (InvokeEndpoint model_name content_type body);
  lift (transform tensor json_parse pil_identify clip_tokenize preprocess_fn
          model_obj_encode_text model_obj_encode_image ENCODE_TYPE body content_type
          "application/json" []).1.

(** [text_predictor]: [clip_text_model] behind a [JSONSerializer]. *)
Definition text_predictor_predict (data : dict) : M world (list vector) :=
  predictor_predict "clip-text-model" "TEXT" "application/json" (json_dumps data).

(** [image_predictor]: [clip_image_model] behind an [IdentitySerializer]. *)
Definition image_predictor_predict (data : bytes) : M world (list vector) :=
  predictor_predict "clip-image-model" "IMAGE" "application/x-image" (raw_bytes data).

Definition encode_image (file_name : string) : M world vector :=
  payload ← read_file file_name;
  res ← image_predictor_predict payload;
  first res.

Definition encode_name (item_name : string) : M world vector :=
  res ← text_predictor_predict {["inputs" := VStrs ["this is a " +:+ item_name]]};
  first res.

(** *** The k-NN query *)

(** The body of the loop over the hits. *)
Definition enrich (h : hit) : M world PilImage :=
  let id_ := _id h in
  r ← get_image_from_item_id id_ true;
  match r.1 with
  | AnImage image =>
      mret {| content := content image;
              name_and_score := Some (float_str (_score h) +:+ ":" +:+ r.2) |}
  | APath _ => raise AttributeError
  end.

Definition search_products (embedding : vector) (k : Z) : M world (list PilImage) :=
  let body := search_request embedding k in
  hits ← es_search body;
  for_collect enrich hits.
End Notebook.

(** *** Showing the results *)

(** What the notebook shows: the lines printed and the calls to matplotlib
    that went through. *)
Inductive display_event :=
  | Print (line : string)
  | PltFigure (width height : Z)
  | PltSubplot (nrows ncols index : Z)
  | PltImshow (image : PilImage)
  | PltTitle (label : string) (fontsize : Z).

(** [int(x)] on a float truncates towards zero. *)
Definition int (x : Q) : Z :=
  if Qle_bool 0 x then Qfloor x else Qceiling x.

(** [l[0:n]] for a list [l] and an integer [n]. *)
Definition slice_to {A} (l : list A) (n : Z) : list A :=
  if decide (0 ≤ n)%Z then take (Z.to_nat n) l
  else take (length l - Z.to_nat (- n)) l.

(** [plt.figure(figsize=(width, height))]: matplotlib raises [ValueError]
    for a negative width or height. *)
Definition plt_figure (width height : Z) : M (list display_event) unit :=
  if decide (width < 0 ∨ height < 0)%Z then raise ValueError
  else emit (PltFigure width height).

(** [plt.subplot(nrows, ncols, index)]: matplotlib raises [ValueError] unless
    the numbers of rows and columns are positive and the index is one of
    [1 .. nrows * ncols]. *)
Definition plt_subplot (nrows ncols index : Z) : M (list display_event) unit :=
  if decide (0 < nrows ∧ 0 < ncols ∧ 1 ≤ index ≤ nrows * ncols)%Z
  then emit (PltSubplot nrows ncols index)
  else raise ValueError.

(** The body of the loop over [enumerate(images)]. *)
Definition show_image (n columns label_font_size : Z) (p : nat * PilImage)
  : M (list display_event) unit :=
  _ ← plt_subplot (int (inject_Z n / inject_Z columns + 1)) columns (Z.of_nat p.1 + 1);
  _ ← emit (PltImshow p.2);
  match name_and_score p.2 with
  | Some label => emit (PltTitle label label_font_size)
  | None => mret tt
  end.

Definition display_images (images : list PilImage)
    (columns width height max_images label_wrap_length label_font_size : Z)
  : M (list display_event) unit :=
  match images with
  | [] => emit (Print "No images to display.")
  | _ =>
      images ←
        (if decide (max_images < Z.of_nat (length images))%Z then
           _ ← emit (Print ("Showing " +:+ pretty max_images +:+ " images of "
                              +:+ pretty (length images) +:+ ":"));
           mret (slice_to images max_images)
         else mret images);
      let n := Z.of_nat (length images) in
      if decide (columns = 0)%Z then raise ZeroDivisionError
      else
        let height := Z.max height (int (inject_Z n / inject_Z columns) * height) in
        _ ← plt_figure width height;
        for_each (show_image n columns label_font_size) (imap pair images)
  end.

(** The defaults of the two signatures. *)
Definition search_products_k : Z := 3.

Definition display_images_defaults (images : list PilImage)
  : M (list display_event) unit :=
  display_images images 2 20 8 15 50 8.


(** ** What a run of the ingestion loop amounts to *)

Section IngestionPlan.
Variable embeddings : list vector.

(** The [(id, body)] pairs the loop sends for the rows it numbers. *)
Definition planned (rows : list (nat * row)) : list (string * dict) :=
  omap (λ p, e ← embeddings !! p.1; Some (item_id p.2, ingest_body p.2 e)) rows.

(** A row the loop gets through: its embedding is there and has the
    dimension of the index. *)
Definition row_ok (dim : nat) (p : nat * row) : Prop :=
  ∃ e, embeddings !! p.1 = Some e ∧ length e = dim.

Global Instance row_ok_dec dim p : Decision (row_ok dim p).
Proof.
  unfold row_ok. destruct (embeddings !! p.1) as [e|].
  - destruct (decide (length e = dim)) as [Hlen|Hlen].
    + left. by exists e.
    + right. intros (e' & [= <-] & ?). done.
  - right. by intros (e' & [=] & _).
Defined.

(** The world a run over [rows] leaves when it gets through all of them. *)
Definition after_ingest (rows : list (nat * row)) (w : world) : world :=
  {| es := {| dimension := dimension (es w);
              docs := upsert_all (planned rows) (docs (es w)) |};
     files := files w;
     calls := calls w ++ ((λ p, EsIndex index_name p.1 p.2) <$> planned rows) |}.
End IngestionPlan.

(** The rows of a frame numbered from [start]. *)
Definition iterrows_from (start : nat) (rows : list row) : list (nat * row) :=
  imap (λ i, pair (start + i)) rows.

(** ** A small catalogue, for the examples *)

Definition rose : row :=
  {| item_id := "B07ROSE"; item_name_in_en_us := "red rose";
     main_image_id := "61a"; image_id := "61a";
     height := 500; width := 500; path := "0e/rose.jpg" |}.

Definition broom : row :=
  {| item_id := "B01BROOM"; item_name_in_en_us := "push broom kit";
     main_image_id := "71b"; image_id := "71b";
     height := 640; width := 480; path := "1f/broom.jpg" |}.

Definition pizza : row :=
  {| item_id := "B09PIZZA"; item_name_in_en_us := "pizza";
     main_image_id := "81c"; image_id := "81c";
     height := 300; width := 400; path := "2a/pizza.jpg" |}.

Definition catalogue : list row := [rose; broom; pizza].

(** An integer as a score or a coordinate. *)
Definition qc (n : Z) : Qc := Qc_of_Z n.

(** Two-dimensional embeddings of the three images, and one of them cut
    short. *)
Definition catalogue_embeddings : list vector :=
  [[qc 1; qc 0]; [qc 0; qc 1]; [qc 1; qc 1]].
Definition truncated_embeddings : list vector :=
  [[qc 1]; [qc 0; qc 1]; [qc 1; qc 1]].

(** A fresh index for them, nothing downloaded, no call made. *)
Definition small_settings : settings :=
  {| index_knn := true;
     index_knn_space_type := "cosinesimil";
     knn_vector_property := "embeddings";
     knn_vector_dimension := 2 |}.

Definition fresh_world : world :=
  {| es := es_indices_create small_settings; files := ∅; calls := [] |}.

(** The world after the loop has run over the catalogue. *)
Definition ingested_world : world :=
  (ingest_data_into_es catalogue catalogue_embeddings fresh_world).2.

(** ** What the query path needs of the catalogue and the bucket *)

Section Servable.
Variable dataset : list row.
Variable DataFrame_query : string → list row → result (list nat).
Variable s3_objects : string → option bytes.
Variable Path_name : string → string.
Variable pil_identify : bytes → bool.

(** An id that [get_image_from_item_id] resolves: the query selects a row
    for it, that row has an object in the bucket, which PIL opens and which
    the download names as [Path(s3_path).name] does. *)
Definition servable (iid : string) : Prop :=
  ∃ r b,
    queried_row dataset DataFrame_query iid = Ok r ∧
    s3_objects (s3_data_root +:+ path r) = Some b ∧
    Path_name (s3_data_root +:+ path r) = Path_name (path r) ∧
    pil_identify b = true.

(** What [search_products] makes of a hit: the name comes from the row of
    [dataset] that the query selects for the id of the hit, the picture from
    the bucket. *)
Definition enriched_from (float_str : Qc → string) (h : hit) (img : PilImage) : Prop :=
  ∃ r,
    queried_row dataset DataFrame_query (_id h) = Ok r ∧
    name_and_score img
      = Some (float_str (_score h) +:+ ":" +:+ item_name_in_en_us r) ∧
    ∀ b, s3_objects (s3_data_root +:+ path r) = Some b →
         Path_name (s3_data_root +:+ path r) = Path_name (path r) →
         content img = b.

(** The download [search_products] makes for a hit. *)
Definition download_for (h : hit) (c : call) : Prop :=
  ∃ r,
    queried_row dataset DataFrame_query (_id h) = Ok r ∧
    c = S3Download (s3_data_root +:+ path r) "./data/images".

(** The world after the download of one object: the call is made, and the
    object, when the bucket holds one, replaces the local file of its name;
    when it holds none the local files stay as they are. *)
Definition downloaded (s3_uri local_path : string) (w : world) : world :=
  {| es := es w;
     files := match s3_objects s3_uri with
              | Some b => <[local_path +:+ "/" +:+ Path_name s3_uri := b]> (files w)
              | None => files w
              end;
     calls := calls w ++ [S3Download s3_uri local_path] |}.

(** The loop over the hits, from world [w] to world [w']: for each hit in
    turn, the row the query selects for its id, the download for the path of
    that row, and a picture that is the local file
    [./data/images/<file name of the path>] as it is after that download,
    labelled with the score of the hit and the name of the row. *)
Fixpoint enrichment (float_str : Qc → string) (hits : list hit)
    (images : list PilImage) (w w' : world) : Prop :=
  match hits, images with
  | [], [] => w' = w
  | h :: hits, img :: images =>
      ∃ r,
        queried_row dataset DataFrame_query (_id h) = Ok r ∧
        name_and_score img
          = Some (float_str (_score h) +:+ ":" +:+ item_name_in_en_us r) ∧
        files (downloaded (s3_data_root +:+ path r) "./data/images" w)
          !! ("./data/images/" +:+ Path_name (path r)) = Some (content img) ∧
        enrichment float_str hits images
          (downloaded (s3_data_root +:+ path r) "./data/images" w) w'
  | _, _ => False
  end.
End Servable.

(** ** What the query of [get_image_from_item_id] selects *)

(** A character that stands for itself between the single quotes of a
    Python string literal: printable ASCII other than the quote (code 39)
    and the backslash (code 92). *)
Definition literal_char (c : ascii) : bool :=
  bool_decide (32 ≤ nat_of_ascii c ≤ 126 ∧ nat_of_ascii c ≠ 39 ∧ nat_of_ascii c ≠ 92)%nat.

(** An id made of such characters only. *)
Fixpoint literal (s : string) : bool :=
  match s with
  | EmptyString => true
  | String c s' => literal_char c && literal s'
  end.

(** The labels of the rows of a frame whose [item_id] is [iid]. *)
Definition rows_with (iid : string) (frame : list row) : list nat :=
  (filter (λ p, item_id p.2 = iid) (imap pair frame)).*1.

(** What pandas does with the comparison of a column to a string literal:
    for an id of characters that stand for themselves, the expression
    [item_id == '<id>'] selects the rows whose [item_id] is the id. *)
Definition query_selects (DataFrame_query : string → list row → result (list nat)) : Prop :=
  ∀ iid frame,
    literal iid → DataFrame_query (item_id_query iid) frame = Ok (rows_with iid frame).

(** The calls that are S3 downloads. *)
Definition is_s3_download (c : call) : Prop :=
  match c with
  | S3Download _ _ => True
  | _ => False
  end.

(** *** Library functions and a bucket, for the examples *)

(** The last component of a slash-separated path. *)
Fixpoint basename_from (acc s : string) : string :=
  match s with
  | EmptyString => acc
  | String c s' =>
      if decide (c = "/"%char) then basename_from "" s'
      else basename_from (acc +:+ String c "") s'
  end.
Definition basename : string → string := basename_from "".

(** Every key of the bucket holds an image. *)
Definition bucket (s3_uri : string) : option bytes := Some ("JPEG " +:+ s3_uri).

Definition fraction_str (x : Qc) : string :=
  pretty (Qnum x) +:+ "/" +:+ pretty (Zpos (Qden x)).

Definition dot_product (u v : vector) : Qc :=
  foldr Qcplus (qc 0) (zip_with Qcmult u v).

(** [s] without the prefix [p], when it starts with it. *)
Fixpoint strip_prefix (p s : string) : option string :=
  match p, s with
  | EmptyString, _ => Some s
  | String a p', String b s' => if decide (a = b) then strip_prefix p' s' else None
  | String _ _, EmptyString => None
  end.

(** The text of a string literal up to its closing quote, and what follows
    the quote. *)
Fixpoint read_literal (s : string) : option (string * string) :=
  match s with
  | EmptyString => None
  | String c s' =>
      if decide (nat_of_ascii c = 39) then Some (EmptyString, s')
      else if literal_char c then
        p ← read_literal s'; Some (String c p.1, p.2)
      else None
  end.

(** The literals of one or more comparisons [item_id == '<literal>'] joined
    by [or]. *)
Fixpoint read_comparisons (fuel : nat) (expr : string) : option (list string) :=
  match fuel with
  | O => None
  | S fuel' =>
      s ← strip_prefix "item_id == '" expr;
      p ← read_literal s;
      if decide (p.2 = EmptyString) then Some [p.1]
      else rest ← strip_prefix " or " p.2;
           ids ← read_comparisons fuel' rest;
           Some (p.1 :: ids)
  end.

(** A query evaluator for the examples. It reads the expressions of that
    form, for which it selects the rows whose [item_id] is one of the
    literals, and answers every other expression with [SyntaxError]. *)
Definition example_query (expr : string) (frame : list row) : result (list nat) :=
  match read_comparisons (String.length expr) expr with
  | Some ids => Ok (filter (λ p, item_id p.2 ∈ ids) (imap pair frame)).*1
  | None => Raise SyntaxError
  end.

Definition example_search (dataset : list row) (embedding : vector) (k : Z)
  : M world (list PilImage) :=
  search_products dataset example_query bucket basename fraction_str dot_product
    (λ _, true) embedding k.

(** An index that was filled from an earlier listing of the rose. *)
Definition rose_renamed : row :=
  {| item_id := "B07ROSE"; item_name_in_en_us := "crimson rose bouquet";
     main_image_id := "61a"; image_id := "61a";
     height := 500; width := 500; path := "0e/rose.jpg" |}.

Definition earlier_world : world :=
  (ingest_data_into_es [rose_renamed] catalogue_embeddings fresh_world).2.

(** The payload [encode_name] sends for an item name. *)
Definition text_payload (item_name : string) : dict :=
  {["inputs" := VStrs ["this is a " +:+ item_name]]}.

(** A JSON parser, for the examples: it knows two texts, an object with
    ["inputs"] and a list, and takes every other byte string for no JSON. *)
Definition double_quote : string := String "034"%char EmptyString.

Definition inputs_text : bytes :=
  "{" +:+ double_quote +:+ "inputs" +:+ double_quote +:+ ": [1, 0]}".

Definition example_json_parse (b : bytes) : result document :=
  if decide (b = inputs_text) then Ok (Object {["inputs" := VVec [qc 1; qc 0]]})
  else if decide (b = "[1, 0]") then Ok NotObject
  else Raise JSONDecodeError.

(** A tokenizer, for the examples: the length of each text. *)
Definition char_tokenize (x : input_object) : result (list nat) :=
  match x with
  | FromJson (VStrs texts) => Ok (String.length <$> texts)
  | FromJson (VStr text) => Ok [String.length text]
  | _ => Raise AttributeError
  end.

(** ** The rest of the notebook: preparing the catalogue *)

(** One entry of the [item_name] list of a listing. *)
Record name_item := {
  language_tag : string;
  item_value : string
}.

(** A line of [listings_0.json.gz], with the columns the notebook uses; a
    listing may lack a main image. *)
Record listing := {
  listing_item_id : string;
  item_name : list name_item;
  listing_main_image_id : option string
}.

(** A row of [meta] after the selection of the three columns. *)
Record meta_row := {
  meta_item_id : string;
  meta_item_name_in_en_us : string;
  meta_main_image_id : option string
}.

(** A row of [images.csv.gz]. *)
Record image_meta_row := {
  csv_image_id : string;
  csv_height : Z;
  csv_width : Z;
  csv_path : string
}.

Definition func_ (x : list name_item) : option string :=
  let us_texts := item_value <$> filter (λ item, language_tag item = "en_US") x in
  head us_texts.

(** [meta.assign(item_name_in_en_us=...)], the rows whose name is not NA,
    and the three columns. *)
Definition meta_of (listings : list listing) : list meta_row :=
  omap (λ l, name ← func_ (item_name l);
             Some {| meta_item_id := listing_item_id l;
                     meta_item_name_in_en_us := name;
                     meta_main_image_id := listing_main_image_id l |})
       listings.

(** The distinct elements of a list, in the order in which they first
    occur. *)
Fixpoint first_occurrences (l : list string) : list string :=
  match l with
  | [] => []
  | x :: l' => x :: filter (λ y, y ≠ x) (first_occurrences l')
  end.

(** [meta.merge(image_meta, left_on="main_image_id", right_on="image_id")],
    an inner join: a row for every pair of a row of [meta] and a row of
    [image_meta] with the same key; a row of [meta] without a main image
    joins nothing. The rows come key by key, the keys in the order in which
    they first occur in [meta] and, for one key, the rows of [meta] and then
    those of [image_meta] in their own order: this is how pandas 1.x lists
    them. The order is pandas' business and differs in later versions; only
    membership is used below. *)
Definition merge (meta : list meta_row) (image_meta : list image_meta_row) : list row :=
  key ← first_occurrences (omap meta_main_image_id meta);
  m ← filter (λ m, meta_main_image_id m = Some key) meta;
  i ← filter (λ i, csv_image_id i = key) image_meta;
  [ {| item_id := meta_item_id m;
       item_name_in_en_us := meta_item_name_in_en_us m;
       main_image_id := key;
       image_id := csv_image_id i;
       height := csv_height i;
       width := csv_width i;
       path := csv_path i |} ].

Definition dataset_of (listings : list listing) (image_meta : list image_meta_row)
  : list row :=
  merge (meta_of listings) image_meta.

(** ** The rest of the notebook: the copy for the batch job *)

(** [s[n:]] *)
Fixpoint str_from (n : nat) (s : string) : string :=
  match n, s with
  | O, _ => s
  | S n', String _ s' => str_from n' s'
  | S _, EmptyString => EmptyString
  end.

Record copy_argument := {
  source : string;
  target_bucket : string;
  target_key : string
}.

Section Upload.
(** The default bucket of the session, and [urlparse] of the standard
    library through the two attributes the cell reads. *)
Variable s3_bucket_name : string.
Variable urlparse_netloc : string → string.
Variable urlparse_path : string → string.

Definition s3_sample_image_root : string :=
  "s3://" +:+ s3_bucket_name +:+ "/sample-images".

(** The loop that builds [arguments]. *)
Definition upload_arguments (dataset : list row) : list copy_argument :=
  (λ record,
     {| source := str_from 5 (s3_data_root +:+ path record);
        target_bucket := urlparse_netloc s3_sample_image_root;
        target_key := str_from 1 (urlparse_path s3_sample_image_root)
                        +:+ "/" +:+ path record |}) <$> dataset.
End Upload.

(** ** The rest of the notebook: loading the embeddings *)

Definition embedding_root_path : string := "./data/embedding".

Section LoadEmbeddings.
(** [json.load] of the content of an output file of the batch job. *)
Variable json_load : bytes → result (list vector).

Definition embedding_file (record : row) : string :=
  embedding_root_path +:+ "/" +:+ path record +:+ ".out".

(** The cell runs on the world and on the global list [embeddings], which
    it appends to in place: the state is the pair of the two. *)
Definition in_world {A} (m : M world A) : M (world * list vector) A :=
  λ s, let r := m s.1 in (r.1, (r.2, s.2)).

(** [embeddings.append(v)] *)
Definition embeddings_append (v : vector) : M (world * list vector) unit :=
  modify (λ s, (s.1, s.2 ++ [v])).

(** One turn of the loop that fills [embeddings]: the file is opened and
    parsed and its first element taken before the list is appended to. *)
Definition load_embedding (record : row) : M (world * list vector) unit :=
  v ← in_world (b ← read_file (embedding_file record);
                res ← lift (json_load b);
                first res);
  embeddings_append v.

(** [embeddings = []] and the loop over the rows. *)
Definition load_embeddings (dataset : list row) : M (world * list vector) unit :=
  _ ← modify (λ s, (s.1, []));
  for_each load_embedding dataset.

(** A row whose output file is there and holds [v] as its first vector. *)
Definition loadable (w : world) (record : row) (v : vector) : Prop :=
  ∃ b vs, files w !! embedding_file record = Some b ∧ json_load b = Ok (v :: vs).
End LoadEmbeddings.

(** ** The rest of the inference script: the environment *)

(** [os.environ.get(key, default)] *)
Definition environ_get (environ : gmap string string) (key default : string) : string :=
  match environ !! key with
  | Some v => v
  | None => default
  end.

Definition MODEL_NAME (environ : gmap string string) : string :=
  environ_get environ "MODEL_NAME" "RN50.pt".

Definition ENCODE_TYPE_of (environ : gmap string string) : string :=
  environ_get environ "ENCODE_TYPE" "TEXT".

(** ** Reading a trace *)

Definition shown_pictures (events : list display_event) : list PilImage :=
  omap (λ e, match e with PltImshow image => Some image | _ => None end) events.

Definition shown_titles (events : list display_event) : list string :=
  omap (λ e, match e with PltTitle label _ => Some label | _ => None end) events.

Definition subplots (events : list display_event) : list (Z * Z * Z) :=
  omap (λ e, match e with
             | PltSubplot nrows ncols index => Some (nrows, ncols, index)
             | _ => None
             end) events.

Definition figures (events : list display_event) : list (Z * Z) :=
  omap (λ e, match e with PltFigure w h => Some (w, h) | _ => None end) events.

Definition is_es_index (c : call) : Prop :=
  match c with
  | EsIndex _ _ _ => True
  | _ => False
  end.

(** What [display_images] draws for one picture, at position [i] of [n]. *)
Definition drawing (n columns label_font_size : Z) (i : nat) (image : PilImage)
  : list display_event :=
  [PltSubplot (int (inject_Z n / inject_Z columns + 1)) columns (Z.of_nat i + 1);
   PltImshow image]
  ++ match name_and_score image with
     | Some label => [PltTitle label label_font_size]
     | None => []
     end.

(** *** More examples *)

Definition rose_listing : listing :=
  {| listing_item_id := "B07ROSE";
     item_name := [ {| language_tag := "de_DE"; item_value := "rote Rose" |};
                    {| language_tag := "en_US"; item_value := "red rose" |};
                    {| language_tag := "en_US"; item_value := "a rose" |} ];
     listing_main_image_id := Some "61a" |}.

Definition rose_image : image_meta_row :=
  {| csv_image_id := "61a"; csv_height := 500; csv_width := 500;
     csv_path := "0e/rose.jpg" |}.

(** A broom, and a second listing that shows the picture of the rose. *)
Definition broom_listing : listing :=
  {| listing_item_id := "B01BROOM";
     item_name := [ {| language_tag := "en_US"; item_value := "push broom kit" |} ];
     listing_main_image_id := Some "71b" |}.

Definition bouquet_listing : listing :=
  {| listing_item_id := "B02BOUQUET";
     item_name := [ {| language_tag := "en_US"; item_value := "bouquet" |} ];
     listing_main_image_id := Some "61a" |}.

Definition broom_image : image_meta_row :=
  {| csv_image_id := "71b"; csv_height := 640; csv_width := 480;
     csv_path := "1f/broom.jpg" |}.

(** Output files of the batch job for the catalogue, as JSON text that
    [example_json_load] reads. *)
Definition example_json_load (b : bytes) : result (list vector) :=
  if decide (b = "[[1, 0]]") then Ok [[qc 1; qc 0]]
  else if decide (b = "[[0, 1]]") then Ok [[qc 0; qc 1]]
  else if decide (b = "[[1, 1]]") then Ok [[qc 1; qc 1]]
  else Raise JSONDecodeError.

Definition transformed_world : world :=
  {| es := es_indices_create small_settings;
     files := {[ "./data/embedding/0e/rose.jpg.out" := "[[1, 0]]";
                 "./data/embedding/1f/broom.jpg.out" := "[[0, 1]]";
                 "./data/embedding/2a/pizza.jpg.out" := "[[1, 1]]" ]};
     calls := [] |}.

(** The batch job has written the output for the rose only. *)
Definition rose_only_world : world :=
  {| es := es_indices_create small_settings;
     files := {[ "./data/embedding/0e/rose.jpg.out" := "[[1, 0]]" ]};
     calls := [] |}.

(** The pictures [display_images] keeps, and what it prints when it drops
    some. *)
Definition kept_images (images : list PilImage) (max_images : Z) : list PilImage :=
  if decide (max_images < Z.of_nat (length images))%Z then slice_to images max_images
  else images.

Definition notice (images : list PilImage) (max_images : Z) : list display_event :=
  if decide (max_images < Z.of_nat (length images))%Z
  then [Print ("Showing " +:+ pretty max_images +:+ " images of "
                 +:+ pretty (length images) +:+ ":")]
  else [].

(** ** The rest of the notebook: the endpoint of the OpenSearch domain *)

(** One entry of the [Outputs] of a stack, and a stack of the response of
    [describe_stacks]; a stack without outputs has no [Outputs] key. *)
Record stack_output := {
  OutputKey : string;
  OutputValue : string
}.

Record stack := {
  Outputs : option (list stack_output)
}.

(** [[o["OutputValue"] for o in response["Stacks"][0]["Outputs"]
      if o["OutputKey"] == "DomainEndpoint"][0]] *)
Definition opensearch_url (Stacks : list stack) : result string :=
  match Stacks with
  | [] => Raise IndexError
  | first_stack :: _ =>
      match Outputs first_stack with
      | None => Raise (KeyError "Outputs")
      | Some outputs =>
          match OutputValue <$> filter (λ output_, OutputKey output_ = "DomainEndpoint") outputs with
          | value :: _ => Ok value
          | [] => Raise IndexError
          end
      end
  end.
(** ** Reasoning about the monad *)

Lemma bind_ok {S A B} (m : M S A) (f : A → M S B) s a s' :
  m s = (Ok a, s') → (m ≫= f) s = f a s'.
Proof. intros Hm. unfold mbind, M_bind. by rewrite Hm. Qed.

Lemma bind_raise {S A B} (m : M S A) (f : A → M S B) s e s' :
  m s = (Raise e, s') → (m ≫= f) s = (Raise e, s').
Proof. intros Hm. unfold mbind, M_bind. by rewrite Hm. Qed.

Lemma bind_inv_ok {S A B} (m : M S A) (f : A → M S B) s b s2 :
  (m ≫= f) s = (Ok b, s2) → ∃ a s1, m s = (Ok a, s1) ∧ f a s1 = (Ok b, s2).
Proof.
  unfold mbind, M_bind. destruct (m s) as [[a|e] s1]; [eauto|discriminate].
Qed.

Lemma for_each_app {S A} (f : A → M S unit) l1 l2 s :
  for_each f (l1 ++ l2) s =
  match for_each f l1 s with
  | (Ok _, s') => for_each f l2 s'
  | (Raise e, s') => (Raise e, s')
  end.
Proof.
  revert s. induction l1 as [|x l1 IH]; intros s; simpl; [done|].
  unfold mbind, M_bind. destruct (f x s) as [[[]|e] s1]; [apply IH|done].
Qed.

(** ** The store: upsert keeps one record per id *)

Section Upsert.
Implicit Types (ds : list (string * dict)) (id : string) (body : dict).

Lemma set_doc_fst id body p : (set_doc id body p).1 = p.1.
Proof. unfold set_doc. by case_decide. Qed.

Lemma set_doc_ids id body ds : (set_doc id body <$> ds).*1 = ds.*1.
Proof.
  rewrite <-list_fmap_compose. apply list_fmap_ext.
  intros _ p _. apply set_doc_fst.
Qed.

Lemma set_doc_absent id body ds : id ∉ ds.*1 → set_doc id body <$> ds = ds.
Proof.
  induction ds as [|p ds IH]; simpl; [done|].
  rewrite not_elem_of_cons. intros [Hne Hni]. f_equal; [|by apply IH].
  unfold set_doc. by case_decide.
Qed.

Lemma set_doc_twice id body body' ds :
  set_doc id body <$> (set_doc id body' <$> ds) = set_doc id body <$> ds.
Proof.
  rewrite <-list_fmap_compose. apply list_fmap_ext. intros _ p _. simpl.
  unfold set_doc. destruct (decide (p.1 = id)); simpl;
    [by rewrite decide_True|by rewrite decide_False].
Qed.

Lemma set_doc_comm id id' body body' ds :
  id ≠ id' →
  set_doc id body <$> (set_doc id' body' <$> ds) =
  set_doc id' body' <$> (set_doc id body <$> ds).
Proof.
  intros Hne. rewrite <-!list_fmap_compose. apply list_fmap_ext.
  intros _ [k v] _. simpl. unfold set_doc. simpl.
  repeat (case_decide; simplify_eq/=); done.
Qed.

Lemma upsert_present id body ds :
  id ∈ ds.*1 → upsert id body ds = set_doc id body <$> ds.
Proof. intros. unfold upsert. by rewrite decide_True. Qed.

Lemma upsert_absent id body ds :
  id ∉ ds.*1 → upsert id body ds = ds ++ [(id, body)].
Proof. intros. unfold upsert. by rewrite decide_False. Qed.

Lemma upsert_ids id body ds :
  (upsert id body ds).*1 = if decide (id ∈ ds.*1) then ds.*1 else ds.*1 ++ [id].
Proof.
  unfold upsert. case_decide; [apply set_doc_ids|by rewrite fmap_app].
Qed.

Lemma upsert_elem_of id body ds : id ∈ (upsert id body ds).*1.
Proof.
  rewrite upsert_ids. case_decide; [done|].
  apply elem_of_app. right. apply list_elem_of_singleton. done.
Qed.

Lemma upsert_keeps id id' body ds : id' ∈ ds.*1 → id' ∈ (upsert id body ds).*1.
Proof.
  intros. rewrite upsert_ids. case_decide; [done|]. apply elem_of_app. by left.
Qed.

Lemma upsert_NoDup id body ds : NoDup ds.*1 → NoDup (upsert id body ds).*1.
Proof.
  intros Hnd. rewrite upsert_ids. case_decide; [done|].
  apply NoDup_app. split_and!; [done| |apply NoDup_singleton].
  intros x Hx ->%list_elem_of_singleton. done.
Qed.

(** Upserting the same record twice is upserting it once. *)
Lemma upsert_upsert id body body' ds :
  upsert id body (upsert id body' ds) = upsert id body ds.
Proof.
  rewrite (upsert_present id body (upsert _ _ _)) by apply upsert_elem_of.
  unfold upsert. case_decide as Hin.
  - apply set_doc_twice.
  - rewrite fmap_app, set_doc_absent by done. simpl.
    unfold set_doc. simpl. by rewrite decide_True.
Qed.

Lemma upsert_set_doc_comm id id' body body' ds :
  id ≠ id' →
  upsert id' body' (set_doc id body <$> ds) = set_doc id body <$> upsert id' body' ds.
Proof.
  intros Hne. unfold upsert. rewrite set_doc_ids. case_decide.
  - by apply set_doc_comm.
  - rewrite fmap_app. simpl. do 2 f_equal. unfold set_doc. simpl.
    by rewrite decide_False by congruence.
Qed.

Lemma upsert_all_app b1 b2 ds :
  upsert_all (b1 ++ b2) ds = upsert_all b2 (upsert_all b1 ds).
Proof. apply foldl_app. Qed.

Lemma upsert_all_NoDup batch ds : NoDup ds.*1 → NoDup (upsert_all batch ds).*1.
Proof.
  revert ds. induction batch as [|p batch IH]; intros ds Hnd; simpl; [done|].
  by apply IH, upsert_NoDup.
Qed.

Lemma upsert_all_keeps batch ds id : id ∈ ds.*1 → id ∈ (upsert_all batch ds).*1.
Proof.
  revert ds. induction batch as [|p batch IH]; intros ds Hin; simpl; [done|].
  by apply IH, upsert_keeps.
Qed.

Lemma upsert_all_elem_of batch ds id : id ∈ batch.*1 → id ∈ (upsert_all batch ds).*1.
Proof.
  revert ds. induction batch as [|p batch IH]; intros ds; simpl.
  - by intros ?%elem_of_nil.
  - intros [->|Hin]%elem_of_cons; [|by apply IH].
    apply upsert_all_keeps, upsert_elem_of.
Qed.

(** A record that the batch writes again later may hold anything before. *)
Lemma upsert_all_overwrites batch ds id body :
  id ∈ batch.*1 →
  upsert_all batch (set_doc id body <$> ds) = upsert_all batch ds.
Proof.
  revert ds. induction batch as [|p batch IH]; intros ds; simpl.
  - by intros ?%elem_of_nil.
  - intros Hin. destruct (decide (p.1 = id)) as [->|Hne].
    + f_equal. unfold upsert. rewrite set_doc_ids. case_decide.
      * apply set_doc_twice.
      * by rewrite set_doc_absent.
    + apply elem_of_cons in Hin as [?|Hin]; [congruence|].
      rewrite upsert_set_doc_comm by done. by apply IH.
Qed.

Lemma set_doc_same id body ds :
  NoDup ds.*1 → (id, body) ∈ ds → set_doc id body <$> ds = ds.
Proof.
  intros Hnd Hin. rewrite <-(list_fmap_id ds) at 2. apply list_fmap_ext.
  intros i [id' body'] Hi. unfold set_doc. simpl. case_decide as Heq; [|done].
  subst id'. f_equal.
  apply list_elem_of_lookup in Hin as [j Hj].
  assert (i = j) as ->; [|congruence].
  eapply NoDup_lookup; [done| |].
  - by rewrite list_lookup_fmap, Hi.
  - by rewrite list_lookup_fmap, Hj.
Qed.

Lemma upsert_holds id body ds : (id, body) ∈ upsert id body ds.
Proof.
  unfold upsert. case_decide as Hin.
  - apply list_elem_of_fmap in Hin as [p [-> Hp]].
    apply list_elem_of_fmap. exists p. split; [|done].
    unfold set_doc. by rewrite decide_True.
  - apply elem_of_app. right. by apply list_elem_of_singleton.
Qed.

Lemma upsert_other id id' body body' ds :
  id ≠ id' → (id, body) ∈ ds → (id, body) ∈ upsert id' body' ds.
Proof.
  intros Hne Hin. unfold upsert. case_decide.
  - apply list_elem_of_fmap. exists (id, body). split; [|done].
    unfold set_doc. simpl. by rewrite decide_False.
  - apply elem_of_app. by left.
Qed.

Lemma upsert_all_untouched batch ds id body :
  id ∉ batch.*1 → (id, body) ∈ ds → (id, body) ∈ upsert_all batch ds.
Proof.
  revert ds. induction batch as [|p batch IH]; intros ds; simpl; [done|].
  rewrite not_elem_of_cons. intros [Hne Hni] Hin.
  apply IH; [done|]. by apply upsert_other.
Qed.

(** Running a batch again over its own result changes nothing. *)
Lemma upsert_all_idem batch ds :
  NoDup ds.*1 → upsert_all batch (upsert_all batch ds) = upsert_all batch ds.
Proof.
  revert ds. induction batch as [|p batch IH]; intros ds Hnd; simpl; [done|].
  set (s1 := upsert p.1 p.2 ds).
  assert (NoDup s1.*1) as Hnd1 by by apply upsert_NoDup.
  rewrite (upsert_present p.1 p.2 (upsert_all batch s1))
    by apply upsert_all_keeps, upsert_elem_of.
  destruct (decide (p.1 ∈ batch.*1)) as [Hin|Hni].
  - rewrite upsert_all_overwrites by done. by apply IH.
  - rewrite set_doc_same; [by apply IH|by apply upsert_all_NoDup|].
    apply upsert_all_untouched; [done|]. apply upsert_holds.
Qed.

(** Resuming: a batch run after a run of one of its prefixes. *)
Lemma upsert_all_resume b1 b2 ds :
  NoDup ds.*1 →
  upsert_all (b1 ++ b2) (upsert_all b1 ds) = upsert_all (b1 ++ b2) ds.
Proof. intros. by rewrite !upsert_all_app, upsert_all_idem. Qed.
End Upsert.

(** ** The ingestion loop *)

Lemma for_each_aborts {S A} (f : A → M S unit) l1 x l2 s s1 e s2 :
  for_each f l1 s = (Ok tt, s1) → f x s1 = (Raise e, s2) →
  for_each f (l1 ++ x :: l2) s = (Raise e, s2).
Proof.
  intros H1 Hx. rewrite for_each_app, H1. simpl. by erewrite bind_raise.
Qed.

Lemma iterrows_app l1 l2 :
  iterrows (l1 ++ l2) = iterrows l1 ++ iterrows_from (length l1) l2.
Proof. unfold iterrows, iterrows_from. by rewrite imap_app. Qed.

Lemma iterrows_from_cons start r rows :
  iterrows_from start (r :: rows) = (start, r) :: iterrows_from (S start) rows.
Proof.
  unfold iterrows_from. rewrite imap_cons. f_equal; [f_equal; lia|].
  apply imap_ext. intros i x _. simpl. f_equal. lia.
Qed.

Lemma ingest_body_vector r e : body_vector (ingest_body r e) = Some e.
Proof. unfold body_vector, ingest_body, vector_field. by rewrite lookup_insert_eq. Qed.

Section Ingestion.
Variable embeddings : list vector.
Implicit Types (p : nat * row) (w : world).

Lemma planned_ok dim p rows :
  row_ok embeddings dim p →
  ∃ e, embeddings !! p.1 = Some e ∧ length e = dim ∧
       planned embeddings (p :: rows)
       = (item_id p.2, ingest_body p.2 e) :: planned embeddings rows.
Proof.
  intros (e & He & Hlen). exists e. split_and!; [done..|].
  unfold planned. simpl. by rewrite He.
Qed.

(** One pass of the loop body, in every case. *)
Lemma ingest_row_spec p w :
  ingest_row embeddings p w =
  match embeddings !! p.1 with
  | None => (Raise IndexError, w)
  | Some e =>
      if decide (length e = dimension (es w))
      then (Ok tt, after_ingest embeddings [p] w)
      else (Raise DimensionMismatch,
            {| es := es w; files := files w;
               calls := calls w ++ [EsIndex index_name (item_id p.2) (ingest_body p.2 e)] |})
  end.
Proof.
  unfold ingest_row. destruct (embeddings !! p.1) as [e|] eqn:He; [|done].
  unfold es_index, remote, modify, step, mbind, M_bind, store_upsert. simpl.
  rewrite ingest_body_vector. case_decide; [|done].
  unfold after_ingest, planned. simpl. by rewrite He.
Qed.

Lemma ingest_row_ok p w :
  row_ok embeddings (dimension (es w)) p →
  ingest_row embeddings p w = (Ok tt, after_ingest embeddings [p] w).
Proof.
  intros (e & He & Hlen). rewrite ingest_row_spec, He. by rewrite decide_True.
Qed.

Lemma ingest_row_inv p w w' :
  ingest_row embeddings p w = (Ok tt, w') → row_ok embeddings (dimension (es w)) p.
Proof.
  rewrite ingest_row_spec. destruct (embeddings !! p.1) as [e|] eqn:He; [|done].
  case_decide; [|done]. intros _. by exists e.
Qed.

Lemma ingest_row_raise p w e w' :
  ingest_row embeddings p w = (Raise e, w') → es w' = es w ∧ files w' = files w.
Proof.
  rewrite ingest_row_spec. destruct (embeddings !! p.1); [case_decide|];
    intros [= <- <-]; done.
Qed.

Lemma after_ingest_cons dim p rows w :
  row_ok embeddings dim p →
  after_ingest embeddings (p :: rows) w
  = after_ingest embeddings rows (after_ingest embeddings [p] w).
Proof.
  intros (e & He & Hlen). unfold after_ingest, planned. simpl.
  rewrite He. simpl. by rewrite <-(assoc_L (++)).
Qed.

Lemma for_each_ingest rows w :
  Forall (row_ok embeddings (dimension (es w))) rows →
  for_each (ingest_row embeddings) rows w = (Ok tt, after_ingest embeddings rows w).
Proof.
  revert w. induction rows as [|p rows IH]; intros w Hok.
  - simpl. unfold mret, M_ret, after_ingest. simpl. destruct w as [[??]??]. simpl.
    by rewrite (right_id_L [] (++)).
  - apply Forall_cons in Hok as [Hp Hrows]. simpl.
    erewrite bind_ok by by apply ingest_row_ok.
    rewrite IH by done. by erewrite <-after_ingest_cons.
Qed.

Lemma for_each_ingest_inv rows w w' :
  for_each (ingest_row embeddings) rows w = (Ok tt, w') →
  Forall (row_ok embeddings (dimension (es w))) rows.
Proof.
  revert w. induction rows as [|p rows IH]; intros w; simpl; [by constructor|].
  intros ([] & w1 & Hp & Hrows)%bind_inv_ok.
  pose proof (ingest_row_inv _ _ _ Hp) as Hok.
  rewrite ingest_row_ok in Hp by done. injection Hp as <-.
  constructor; [done|]. by apply IH in Hrows.
Qed.
End Ingestion.

Lemma planned_app embeddings l1 l2 :
  planned embeddings (l1 ++ l2) = planned embeddings l1 ++ planned embeddings l2.
Proof. apply omap_app. Qed.

Lemma planned_elem_of embeddings dim i r rows :
  Forall (row_ok embeddings dim) rows → (i, r) ∈ rows →
  ∃ e, embeddings !! i = Some e ∧ (item_id r, ingest_body r e) ∈ planned embeddings rows.
Proof.
  intros Hok Hin. rewrite Forall_forall in Hok.
  destruct (Hok _ Hin) as (e & He & _). exists e. split; [done|].
  apply list_elem_of_omap. exists (i, r). split; [done|]. simpl in *. by rewrite He.
Qed.

Lemma planned_origin embeddings id d rows :
  (id, d) ∈ planned embeddings rows →
  ∃ i r e, (i, r) ∈ rows ∧ embeddings !! i = Some e ∧ id = item_id r ∧ d = ingest_body r e.
Proof.
  intros ([i r] & Hin & Hf)%list_elem_of_omap. simpl in Hf.
  destruct (embeddings !! i) as [e|] eqn:He; [|done].
  injection Hf as <- <-. by exists i, r, e.
Qed.

Lemma ingest_body_dom r e :
  dom (ingest_body r e) = ({[ "item_name_in_en_us"; "embeddings" ]} : gset string).
Proof.
  unfold ingest_body. rewrite dom_insert_L, dom_singleton_L. set_solver.
Qed.

(** Where a record of the index comes from after a batch. *)
Lemma upsert_origin id body id' d ds :
  (id', d) ∈ upsert id body ds → (id', d) = (id, body) ∨ ((id', d) ∈ ds ∧ id' ≠ id).
Proof.
  unfold upsert. case_decide.
  - intros ([k v] & Heq & Hin)%list_elem_of_fmap. unfold set_doc in Heq. simpl in Heq.
    case_decide; simplify_eq; auto.
  - intros [Hin| ->%list_elem_of_singleton]%elem_of_app; [|by left].
    right. split; [done|]. intros ->. by apply (list_elem_of_fmap_2 fst) in Hin.
Qed.

Lemma upsert_all_origin batch ds id d :
  (id, d) ∈ upsert_all batch ds → (id, d) ∈ batch ∨ ((id, d) ∈ ds ∧ id ∉ batch.*1).
Proof.
  revert ds. induction batch as [|[k v] batch IH]; intros ds; simpl.
  - intros. right. split; [done|]. apply not_elem_of_nil.
  - intros [Hin|[Hin Hni]]%IH; [left; by right|].
    apply upsert_origin in Hin as [[= -> ->]|[Hin Hne]]; [left; by left|].
    right. split; [done|]. by apply not_elem_of_cons.
Qed.

Lemma no_record_of_absent_id (ds : list (string * dict)) id :
  id ∉ ds.*1 → filter (λ p, p.1 = id) ds = [].
Proof.
  induction ds as [|[k v] ds IH]; simpl; [done|].
  rewrite not_elem_of_cons. intros [Hne Hni].
  rewrite filter_cons_False by (simpl; congruence). by apply IH.
Qed.

Lemma one_record_per_id (ds : list (string * dict)) id :
  NoDup ds.*1 → id ∈ ds.*1 → length (filter (λ p, p.1 = id) ds) = 1.
Proof.
  induction ds as [|[k v] ds IH]; simpl; [by intros _ ?%elem_of_nil|].
  intros [Hk Hnd]%NoDup_cons Hin. rewrite filter_cons. simpl. case_decide as Heq.
  - subst k. simpl. by rewrite no_record_of_absent_id.
  - apply elem_of_cons in Hin as [?|Hin]; [congruence|]. by apply IH.
Qed.

Lemma iterrows_lookup rows idx r : rows !! idx = Some r → (idx, r) ∈ iterrows rows.
Proof. intros. unfold iterrows. by apply (elem_of_lookup_imap_2 pair). Qed.

Lemma iterrows_elem_of rows i r : (i, r) ∈ iterrows rows → rows !! i = Some r.
Proof.
  intros (j & x & [= -> ->] & Hj)%elem_of_lookup_imap. done.
Qed.

Lemma ingest_ok_inv dataset embeddings w w1 :
  ingest_data_into_es dataset embeddings w = (Ok tt, w1) →
  Forall (row_ok embeddings (dimension (es w))) (iterrows dataset) ∧
  w1 = after_ingest embeddings (iterrows dataset) w.
Proof.
  unfold ingest_data_into_es. intros Hrun.
  pose proof (for_each_ingest_inv _ _ _ _ Hrun) as Hok. split; [done|].
  rewrite for_each_ingest in Hrun by done. congruence.
Qed.

Lemma iterrows_from_0 rows : iterrows rows = iterrows_from 0 rows.
Proof. unfold iterrows, iterrows_from. by apply imap_ext. Qed.

Lemma planned_calls_lookup_from embeddings dim rows start idx r :
  Forall (row_ok embeddings dim) (iterrows_from start rows) → rows !! idx = Some r →
  ∃ e, embeddings !! (start + idx) = Some e ∧
       ((λ p, EsIndex index_name p.1 p.2) <$> planned embeddings (iterrows_from start rows)) !! idx
       = Some (EsIndex index_name (item_id r) (ingest_body r e)).
Proof.
  revert start idx. induction rows as [|x rows IH]; intros start idx Hok Hidx; [done|].
  rewrite iterrows_from_cons in Hok |- *.
  apply Forall_cons in Hok as [(e & He & Hlen) Hok].
  unfold planned. simpl in *. rewrite He. simpl. destruct idx as [|idx]; simpl in *.
  - injection Hidx as ->. exists e. by rewrite Nat.add_0_r.
  - destruct (IH (S start) idx Hok Hidx) as (e' & He' & Hl).
    exists e'. by rewrite <-Nat.add_succ_comm.
Qed.

Lemma planned_calls_lookup embeddings dim rows idx r :
  Forall (row_ok embeddings dim) (iterrows rows) → rows !! idx = Some r →
  ∃ e, embeddings !! idx = Some e ∧
       ((λ p, EsIndex index_name p.1 p.2) <$> planned embeddings (iterrows rows)) !! idx
       = Some (EsIndex index_name (item_id r) (ingest_body r e)).
Proof. rewrite iterrows_from_0. apply planned_calls_lookup_from. Qed.

Lemma planned_length embeddings dim rows :
  Forall (row_ok embeddings dim) rows → length (planned embeddings rows) = length rows.
Proof.
  induction 1 as [|p rows (e & He & _) _ IH]; [done|].
  unfold planned. simpl. rewrite He. simpl. f_equal. apply IH.
Qed.

(** C10. When the ingestion loop gets through [dataset], the call it made
    for the row numbered [idx] is [es.index] with [id] the row's [item_id]
    and a body of exactly two fields: [item_name_in_en_us], the row's name,
    and [embeddings], the vector [embeddings[idx]]. No other column of the
    row is sent, and every record the index then holds under that id has
    these two fields only. *)
Theorem ingested_document_is_name_and_embedding
    (dataset : list row) (embeddings : list vector) (w w1 : world)
    (idx : nat) (record : row) :
  ingest_data_into_es dataset embeddings w = (Ok tt, w1) →
  dataset !! idx = Some record →
  ∃ e body,
    embeddings !! idx = Some e ∧
    calls w1 !! (length (calls w) + idx) = Some (EsIndex index_name (item_id record) body) ∧
    length (calls w1) = length (calls w) + length dataset ∧
    dom body = ({[ "item_name_in_en_us"; "embeddings" ]} : gset string) ∧
    body !! "item_name_in_en_us" = Some (VStr (item_name_in_en_us record)) ∧
    body !! "embeddings" = Some (VVec e) ∧
    (∀ d, (item_id record, d) ∈ docs (es w1) →
          dom d = ({[ "item_name_in_en_us"; "embeddings" ]} : gset string)).
Proof.
  intros [Hok ->]%ingest_ok_inv Hidx.
  destruct (planned_calls_lookup _ _ _ _ _ Hok Hidx) as (e & He & Hcall).
  exists e, (ingest_body record e). split_and!.
  - done.
  - simpl. rewrite lookup_app_r by lia.
    by replace (length (calls w) + idx - length (calls w)) with idx by lia.
  - simpl. rewrite length_app, length_fmap.
    erewrite planned_length by done. unfold iterrows. by rewrite length_imap.
  - apply ingest_body_dom.
  - unfold ingest_body. by rewrite lookup_insert_ne, lookup_singleton_eq.
  - unfold ingest_body. by rewrite lookup_insert_eq.
  - simpl. intros d [Hin|[_ Hni]]%upsert_all_origin.
    + apply planned_origin in Hin as (i & r & e' & _ & _ & _ & ->).
      apply ingest_body_dom.
    + destruct Hni. apply iterrows_lookup in Hidx.
      destruct (planned_elem_of _ _ _ _ _ Hok Hidx) as (e' & _ & Hin).
      by apply (list_elem_of_fmap_2 fst) in Hin.
Qed.

Lemma ingested_document_is_name_and_embedding_witness :
  ∃ e body,
    catalogue_embeddings !! 1 = Some e ∧
    calls (ingest_data_into_es catalogue catalogue_embeddings fresh_world).2 !! (0 + 1)
      = Some (EsIndex "clip-index" "B01BROOM" body) ∧
    length (calls (ingest_data_into_es catalogue catalogue_embeddings fresh_world).2)
      = 0 + 3 ∧
    dom body = ({[ "item_name_in_en_us"; "embeddings" ]} : gset string) ∧
    body !! "item_name_in_en_us" = Some (VStr "push broom kit") ∧
    body !! "embeddings" = Some (VVec e) ∧
    (∀ d, ("B01BROOM", d)
            ∈ docs (es (ingest_data_into_es catalogue catalogue_embeddings fresh_world).2) →
          dom d = ({[ "item_name_in_en_us"; "embeddings" ]} : gset string)).
Proof.
  apply (ingested_document_is_name_and_embedding
           catalogue catalogue_embeddings fresh_world
           (ingest_data_into_es catalogue catalogue_embeddings fresh_world).2 1 broom).
  - vm_compute. reflexivity.
  - reflexivity.
Defined.

Lemma store_upsert_twice id body ix ix1 :
  store_upsert id body ix = Ok ix1 → store_upsert id body ix1 = Ok ix1.
Proof.
  unfold store_upsert. destruct (body_vector body) as [v|].
  - case_decide as Hlen; [|done]. intros [= <-]. simpl.
    rewrite decide_True by done. by rewrite upsert_upsert.
  - intros [= <-]. simpl. by rewrite upsert_upsert.
Qed.

(** The index keeps one record per id through every upsert it accepts. *)
Lemma store_upsert_NoDup id body ix ix1 :
  NoDup (index_ids ix) → store_upsert id body ix = Ok ix1 → NoDup (index_ids ix1).
Proof.
  unfold store_upsert, index_ids. intros Hnd.
  destruct (body_vector body) as [v|]; [case_decide; [|done]|];
    intros [= <-]; by apply upsert_NoDup.
Qed.

(** C4. Upserting a record a second time leaves the index as the first
    upsert left it. For a run of the ingestion loop that completes on an
    index with one record per id: the index still holds one record per id,
    exactly one for the [item_id] of every row of [dataset]; running the
    loop again completes and leaves the same index, so every k-NN query
    answers as before; and so does a full run made after a run that stopped
    behind the first [n] rows. *)
Theorem reingestion_is_idempotent
    (dataset : list row) (embeddings : list vector) (w w1 : world) :
  NoDup (index_ids (es w)) →
  ingest_data_into_es dataset embeddings w = (Ok tt, w1) →
  (∀ id body ix ix1,
     store_upsert id body ix = Ok ix1 → store_upsert id body ix1 = Ok ix1) ∧
  NoDup (index_ids (es w1)) ∧
  (∀ r, r ∈ dataset →
        length (filter (λ p, p.1 = item_id r) (docs (es w1))) = 1) ∧
  (∃ w2, ingest_data_into_es dataset embeddings w1 = (Ok tt, w2) ∧
         es w2 = es w1 ∧
         ∀ cosinesimil body,
           knn_query cosinesimil body (es w2) = knn_query cosinesimil body (es w1)) ∧
  (∀ n, ∃ wn w',
     ingest_data_into_es (take n dataset) embeddings w = (Ok tt, wn) ∧
     ingest_data_into_es dataset embeddings wn = (Ok tt, w') ∧
     es w' = es w1 ∧
     ∀ cosinesimil body,
       knn_query cosinesimil body (es w') = knn_query cosinesimil body (es w1)).
Proof.
  intros Hnd [Hok ->]%ingest_ok_inv. unfold index_ids in *.
  split_and!.
  - apply store_upsert_twice.
  - simpl. by apply upsert_all_NoDup.
  - intros r (idx & Hidx%iterrows_lookup)%list_elem_of_lookup. simpl.
    apply one_record_per_id; [by apply upsert_all_NoDup|].
    destruct (planned_elem_of _ _ _ _ _ Hok Hidx) as (e & _ & Hin).
    apply upsert_all_elem_of. by apply (list_elem_of_fmap_2 fst) in Hin.
  - eexists. unfold ingest_data_into_es. rewrite for_each_ingest by done.
    split; [done|]. simpl.
    assert (∀ x y : index, x = y → ∀ c b, knn_query c b x = knn_query c b y)
      as Hq by by intros ?? ->.
    rewrite upsert_all_idem by done. split; [done|]. by apply Hq.
  - intros n.
    assert (iterrows dataset
            = iterrows (take n dataset)
              ++ iterrows_from (length (take n dataset)) (drop n dataset)) as Hsplit
      by by rewrite <-iterrows_app, take_drop.
    pose proof Hok as Hok'. rewrite Hsplit in Hok'.
    apply Forall_app in Hok' as [Hok1 Hok2].
    set (wn := after_ingest embeddings (iterrows (take n dataset)) w).
    assert (es (after_ingest embeddings (iterrows dataset) wn)
            = es (after_ingest embeddings (iterrows dataset) w)) as Hes.
    { simpl. f_equal. rewrite Hsplit, planned_app. by apply upsert_all_resume. }
    exists wn, (after_ingest embeddings (iterrows dataset) wn).
    unfold ingest_data_into_es. rewrite !for_each_ingest by done.
    split_and!; [done..|]. intros c b. by rewrite Hes.
Qed.

Lemma reingestion_is_idempotent_witness :
  (∀ id body ix ix1,
     store_upsert id body ix = Ok ix1 → store_upsert id body ix1 = Ok ix1) ∧
  NoDup (index_ids (es ingested_world)) ∧
  (∀ r, r ∈ catalogue →
        length (filter (λ p, p.1 = item_id r) (docs (es ingested_world))) = 1) ∧
  (∃ w2, ingest_data_into_es catalogue catalogue_embeddings ingested_world = (Ok tt, w2) ∧
         es w2 = es ingested_world ∧
         ∀ cosinesimil body,
           knn_query cosinesimil body (es w2)
           = knn_query cosinesimil body (es ingested_world)) ∧
  (∀ n, ∃ wn w',
     ingest_data_into_es (take n catalogue) catalogue_embeddings fresh_world = (Ok tt, wn) ∧
     ingest_data_into_es catalogue catalogue_embeddings wn = (Ok tt, w') ∧
     es w' = es ingested_world ∧
     ∀ cosinesimil body,
       knn_query cosinesimil body (es w')
       = knn_query cosinesimil body (es ingested_world)).
Proof.
  apply (reingestion_is_idempotent catalogue catalogue_embeddings fresh_world ingested_world).
  - simpl. apply NoDup_nil_2.
  - vm_compute. reflexivity.
Defined.

(** C3, as the loop is written. The loop has no handler around its body and
    returns no summary. If every row has its embedding, of the dimension of
    the index, the loop completes and has upserted every row in order. If
    not, it raises at the first row that has not ([IndexError] when the
    embedding is missing, the store's [DimensionMismatch] otherwise): the
    rows before it are upserted, that row and the rows after it are not. *)
Theorem ingestion_stops_at_first_failure
    (dataset : list row) (embeddings : list vector) (w : world) :
  (Forall (row_ok embeddings (dimension (es w))) (iterrows dataset) →
   ingest_data_into_es dataset embeddings w
   = (Ok tt, after_ingest embeddings (iterrows dataset) w)) ∧
  (∀ pre record post,
     dataset = pre ++ record :: post →
     Forall (row_ok embeddings (dimension (es w))) (iterrows pre) →
     ¬ row_ok embeddings (dimension (es w)) (length pre, record) →
     ∃ w2,
       ingest_data_into_es dataset embeddings w
       = (Raise (if embeddings !! length pre is Some _
                 then DimensionMismatch else IndexError), w2) ∧
       es w2 = es (after_ingest embeddings (iterrows pre) w) ∧
       (length (calls w2) ≤ length (calls w) + length pre + 1)%nat).
Proof.
  split; [apply for_each_ingest|].
  intros pre record post -> Hpre Hbad. unfold ingest_data_into_es.
  rewrite iterrows_app, iterrows_from_cons.
  set (w1 := after_ingest embeddings (iterrows pre) w).
  assert (length (calls w1) = length (calls w) + length pre) as Hcalls.
  { simpl. rewrite length_app, length_fmap. erewrite planned_length by done.
    unfold iterrows. by rewrite length_imap. }
  pose proof (ingest_row_spec embeddings (length pre, record) w1) as Hrow.
  simpl in Hrow. destruct (embeddings !! length pre) as [e|] eqn:He.
  - rewrite decide_False in Hrow by (intros Hlen; apply Hbad; by exists e).
    eexists. split; [|split].
    + eapply for_each_aborts; [by apply for_each_ingest|exact Hrow].
    + done.
    + simpl. rewrite !length_app, length_fmap. simpl.
      erewrite planned_length by done. unfold iterrows. rewrite length_imap. lia.
  - eexists. split; [|split].
    + eapply for_each_aborts; [by apply for_each_ingest|exact Hrow].
    + done.
    + lia.
Qed.

(** A batch whose first embedding has the wrong length, over a fresh
    two-dimensional index. *)
Lemma ingestion_stops_at_first_failure_witness :
  ∃ w2,
    ingest_data_into_es catalogue truncated_embeddings fresh_world
    = (Raise DimensionMismatch, w2) ∧
    es w2 = es (after_ingest truncated_embeddings (iterrows []) fresh_world) ∧
    (length (calls w2) ≤ length (calls fresh_world) + length (@nil row) + 1)%nat.
Proof.
  apply (proj2 (ingestion_stops_at_first_failure catalogue truncated_embeddings fresh_world)
           [] rose [broom; pizza]).
  - reflexivity.
  - apply Forall_nil_2.
  - intros (e & He & Hlen). vm_compute in He. injection He as <-. discriminate Hlen.
Defined.

(** C3, as stated, fails: the first item of the batch cannot be upserted, the
    loop raises instead of completing with a summary, and the two items behind
    it, which are fine, are never sent to the index. *)
Lemma ingestion_aborts_on_one_bad_item :
  (ingest_data_into_es catalogue truncated_embeddings fresh_world).1
    = Raise DimensionMismatch ∧
  index_ids (es (ingest_data_into_es catalogue truncated_embeddings fresh_world).2) = [] ∧
  length (calls (ingest_data_into_es catalogue truncated_embeddings fresh_world).2) = 1 ∧
  row_ok truncated_embeddings 2 (1, broom) ∧
  row_ok truncated_embeddings 2 (2, pizza).
Proof.
  split_and!; [by vm_compute..| |].
  - by exists [qc 0; qc 1].
  - by exists [qc 1; qc 1].
Qed.

(** ** The store: ranking *)

Global Instance hit_order_total : Total hit_order.
Proof.
  intros h1 h2. unfold hit_order.
  destruct (Qclt_le_dec (_score h2) (_score h1)) as [?|Hle]; [by left; left|].
  apply Qcle_lt_or_eq in Hle as [?|Heq]; [by right; left|].
  destruct (total String.le (_id h1) (_id h2)); [left|right]; right; done.
Qed.

Global Instance hit_order_trans : Transitive hit_order.
Proof.
  intros h1 h2 h3 [H12|[E12 L12]] [H23|[E23 L23]]; unfold hit_order.
  - left. by eapply Qclt_trans.
  - left. by rewrite <-E23.
  - left. by rewrite E12.
  - right. split; [congruence|]. by etrans.
Qed.

Lemma StronglySorted_take {A} (R : relation A) n l :
  StronglySorted R l → StronglySorted R (take n l).
Proof.
  intros Hl. rewrite <-(take_drop n l) in Hl. by eapply StronglySorted_app_1_l.
Qed.

Lemma project_lookup exclude (d : dict) f :
  project exclude d !! f = if decide (f ∈ exclude) then None else d !! f.
Proof.
  unfold project. induction exclude as [|x exclude IH]; cbn [foldr].
  - case_decide as Hin; [by apply elem_of_nil in Hin|done].
  - destruct (decide (x = f)) as [->|Hne].
    + rewrite lookup_delete_eq. by rewrite decide_True by left.
    + rewrite lookup_delete_ne, IH by done. case_decide as Hin.
      * by rewrite decide_True by by right.
      * rewrite decide_False; [done|]. by intros [?|?]%elem_of_cons.
Qed.

Section Ranking.
Variable cosinesimil : vector → vector → Qc.

Lemma ranked_sorted b ds : StronglySorted hit_order (ranked cosinesimil b ds).
Proof. apply (StronglySorted_merge_sort hit_order). Qed.

Lemma ranked_elem_of b ds h :
  h ∈ ranked cosinesimil b ds →
  ∃ d v, (_id h, d) ∈ ds ∧ d !! knn_field b = Some (VVec v) ∧
         _score h = cosinesimil (knn_vector b) v ∧ _source h = d.
Proof.
  unfold ranked. rewrite merge_sort_Permutation.
  intros ([id d] & Hin & Hh)%list_elem_of_omap. unfold score_doc in Hh. simpl in Hh.
  destruct (d !! knn_field b) as [[| |v|]|] eqn:Hd; try done.
  injection Hh as <-. by exists d, v.
Qed.

(** What the hits of a k-NN query are, whenever the store answers. *)
Lemma knn_query_hits b ix hits :
  knn_query cosinesimil b ix = Ok hits →
  (length hits ≤ Z.to_nat (body_size b))%nat ∧
  (length hits ≤ Z.to_nat (knn_k b))%nat ∧
  StronglySorted hit_order hits ∧
  ∀ h, h ∈ hits →
    ∃ d v, (_id h, d) ∈ docs ix ∧ d !! knn_field b = Some (VVec v) ∧
           _score h = cosinesimil (knn_vector b) v ∧
           _source h = project (source_exclude b) d.
Proof.
  unfold knn_query. case_decide as Hempty.
  { intros [= <-]. simpl. split_and!; [lia..|constructor|by intros ? ?%elem_of_nil]. }
  case_decide; [|done]. intros [= <-]. split_and!.
  - rewrite length_fmap, length_take. lia.
  - rewrite length_fmap, !length_take. lia.
  - eapply StronglySorted_fmap with (R1 := hit_order); [by intros [] []|].
    do 2 apply StronglySorted_take. apply ranked_sorted.
  - intros h (h0 & -> & Hin)%list_elem_of_fmap.
    apply (sublist_subseteq _ _ (sublist_take _ _)) in Hin.
    apply (sublist_subseteq _ _ (sublist_take _ _)) in Hin.
    apply ranked_elem_of in Hin as (d & v & ? & ? & ? & Hs).
    exists d, v. simpl. by rewrite Hs.
Qed.

Lemma knn_query_ok b ix :
  docs ix = [] ∨ length (knn_vector b) = dimension ix →
  ∃ hits, knn_query cosinesimil b ix = Ok hits.
Proof.
  unfold knn_query. intros [Hempty|Hdim].
  - rewrite decide_True by done. eauto.
  - case_decide; [eauto|]. rewrite decide_True by done. eauto.
Qed.
End Ranking.

(** ** The query path *)

Lemma for_collect_length {S A B} (f : A → M S B) l s ys s' :
  for_collect f l s = (Ok ys, s') → length ys = length l.
Proof.
  revert s ys. induction l as [|x l IH]; intros s ys; simpl.
  - unfold mret, M_ret. intros [= <- <-]. done.
  - intros (y & s1 & _ & (ys' & s2 & Hl & Hret)%bind_inv_ok)%bind_inv_ok.
    unfold mret, M_ret in Hret. injection Hret as <- <-.
    simpl. f_equal. by eapply IH.
Qed.

(** ** Fetching the picture of an item *)

Section GetImage.
Variable dataset : list row.
Variable DataFrame_query : string → list row → result (list nat).
Variable s3_objects : string → option bytes.
Variable Path_name : string → string.
Variable pil_identify : bytes → bool.

Local Abbreviation get_image :=
  (get_image_from_item_id dataset DataFrame_query s3_objects Path_name pil_identify).
Local Abbreviation fetched r :=
  (downloaded s3_objects Path_name (s3_data_root +:+ path r) "./data/images").

(** [get_image_from_item_id], in every case. *)
Lemma get_image_spec iid return_image w :
  get_image iid return_image w =
  match queried_row dataset DataFrame_query iid with
  | Raise e => (Raise e, w)
  | Ok r =>
      let file := "./data/images" +:+ "/" +:+ Path_name (path r) in
      if return_image then
        match files (fetched r w) !! file with
        | None => (Raise (FileNotFoundError file), fetched r w)
        | Some b =>
            if pil_identify b
            then (Ok (AnImage {| content := b; name_and_score := None |},
                      item_name_in_en_us r), fetched r w)
            else (Raise UnidentifiedImageError, fetched r w)
        end
      else (Ok (APath file, item_name_in_en_us r), fetched r w)
  end.
Proof.
  unfold get_image_from_item_id, queried_row, first, dataset_iloc, lift,
    mbind, M_bind, mret, M_ret, raise.
  destruct (DataFrame_query _ dataset) as [[|item_idx selected]|e]; [done| |done].
  destruct (dataset !! item_idx) as [r|]; [|done].
  unfold s3down_download, downloaded, read_file, remote, modify, step, lift,
    Image_open, mbind, M_bind, mret, M_ret.
  simpl. destruct return_image.
  - destruct (s3_objects _) as [b0|]; simpl;
      (destruct (_ !! _) as [b|]; simpl; [destruct (pil_identify b)|]; done).
  - by destruct (s3_objects _).
Qed.

(** The labels of the rows with an id start with the position of the first
    of these rows. *)
Lemma rows_with_from iid frame start :
  head ((filter (λ p, item_id p.2 = iid) (imap (λ i, pair (start + i)) frame)).*1)
  = (λ p, start + p.1) <$> list_find (λ r, item_id r = iid) frame.
Proof.
  revert start. induction frame as [|r frame IH]; intros start; [done|].
  rewrite imap_cons, filter_cons. cbn [list_find snd]. case_decide.
  - simpl. by rewrite Nat.add_0_r.
  - rewrite (imap_ext _ (λ i, pair (S start + i)))
      by (intros; simpl; f_equal; lia).
    rewrite IH. destruct (list_find _ frame) as [[i r']|]; simpl; [|done].
    f_equal. lia.
Qed.

Lemma rows_with_head iid frame :
  head (rows_with iid frame) = fst <$> list_find (λ r, item_id r = iid) frame.
Proof.
  unfold rows_with. etrans; [exact (rows_with_from iid frame 0)|].
  by destruct (list_find _ frame) as [[i r]|].
Qed.

(** Where the query compares the column to the literal, the row read is the
    first row with the id, and [IndexError] is raised when there is none. *)
Lemma queried_row_literal iid :
  query_selects DataFrame_query → literal iid →
  queried_row dataset DataFrame_query iid
  = match list_find (λ r, item_id r = iid) dataset with
    | Some (_, r) => Ok r
    | None => Raise IndexError
    end.
Proof.
  intros Hquery Hlit. unfold queried_row. rewrite Hquery by done.
  pose proof (rows_with_head iid dataset) as Hhead.
  destruct (list_find _ dataset) as [[i r]|] eqn:Hfind;
    destruct (rows_with iid dataset) as [|item_idx selected]; simpl in Hhead; try done.
  injection Hhead as ->. apply list_find_Some in Hfind as (Hi & _). by rewrite Hi.
Qed.

Lemma first_row_with_id iid :
  iid ∈ item_id <$> dataset →
  ∃ i r, list_find (λ r, item_id r = iid) dataset = Some (i, r).
Proof.
  intros (r & -> & Hr)%list_elem_of_fmap.
  destruct (list_find_elem_of (λ r', item_id r' = item_id r) dataset r)
    as [[i r'] Hfind]; [done..|]. by exists i, r'.
Qed.

Lemma list_find_absent_id iid :
  iid ∉ item_id <$> dataset → list_find (λ r, item_id r = iid) dataset = None.
Proof.
  intros Hni. apply list_find_None, Forall_forall. intros r Hr Hid.
  apply Hni, list_elem_of_fmap. by exists r.
Qed.
End GetImage.

Section Query.
Variable dataset : list row.
Variable DataFrame_query : string → list row → result (list nat).
Variable s3_objects : string → option bytes.
Variable Path_name : string → string.
Variable float_str : Qc → string.
Variable cosinesimil : vector → vector → Qc.
Variable pil_identify : bytes → bool.

Local Abbreviation enrich_hit :=
  (enrich dataset DataFrame_query s3_objects Path_name float_str pil_identify).
Local Abbreviation search :=
  (search_products dataset DataFrame_query s3_objects Path_name float_str cosinesimil
     pil_identify).
Local Abbreviation label h r :=
  (float_str (_score h) +:+ ":" +:+ item_name_in_en_us r).
Local Abbreviation fetched r :=
  (downloaded s3_objects Path_name (s3_data_root +:+ path r) "./data/images").
Local Abbreviation row_for h := (queried_row dataset DataFrame_query (_id h)).

(** One pass of the loop over the hits, in every case. *)
Lemma enrich_spec h w :
  enrich_hit h w =
  match row_for h with
  | Raise e => (Raise e, w)
  | Ok r =>
      let file := "./data/images" +:+ "/" +:+ Path_name (path r) in
      match files (fetched r w) !! file with
      | None => (Raise (FileNotFoundError file), fetched r w)
      | Some b =>
          if pil_identify b
          then (Ok {| content := b; name_and_score := Some (label h r) |}, fetched r w)
          else (Raise UnidentifiedImageError, fetched r w)
      end
  end.
Proof.
  unfold enrich, mbind, M_bind. rewrite get_image_spec.
  destruct (row_for h) as [r|e]; [|done].
  simpl. destruct (_ !! _) as [b|]; [destruct (pil_identify b)|]; done.
Qed.

Lemma enrich_es h w : es (enrich_hit h w).2 = es w.
Proof.
  rewrite enrich_spec. destruct (row_for h) as [r|e]; [|done].
  simpl. destruct (_ !! _) as [b|]; [destruct (pil_identify b)|]; done.
Qed.

Lemma enrich_calls h w :
  ∃ tail, calls (enrich_hit h w).2 = calls w ++ tail ∧ Forall is_s3_download tail.
Proof.
  rewrite enrich_spec. destruct (row_for h) as [r|e].
  - exists [S3Download (s3_data_root +:+ path r) "./data/images"].
    split; [|by repeat constructor].
    simpl. destruct (_ !! _) as [b|]; [destruct (pil_identify b)|]; done.
  - exists []. split; [by rewrite (right_id_L [] (++))|constructor].
Qed.

Lemma enrich_ok_inv h w img w' :
  enrich_hit h w = (Ok img, w') →
  ∃ r, row_for h = Ok r ∧ w' = fetched r w ∧
       name_and_score img = Some (label h r) ∧
       files (fetched r w) !! ("./data/images/" +:+ Path_name (path r))
       = Some (content img).
Proof.
  rewrite enrich_spec. destruct (row_for h) as [r|e]; [|done].
  simpl. destruct (_ !! _) as [b|] eqn:Hb; [destruct (pil_identify b)|]; try done.
  intros [= <- <-]. by exists r.
Qed.

Lemma enrich_enriched_from h w img w' :
  enrich_hit h w = (Ok img, w') →
  enriched_from dataset DataFrame_query s3_objects Path_name float_str h img.
Proof.
  intros (r & Hrow & -> & Hlabel & Hfile)%enrich_ok_inv.
  exists r. split_and!; [done..|]. intros b Hobj Hname.
  unfold downloaded in Hfile. simpl in Hfile.
  rewrite Hobj, Hname in Hfile.
  rewrite (lookup_insert_eq (files w)) in Hfile. congruence.
Qed.

Lemma enrich_servable h w :
  servable dataset DataFrame_query s3_objects Path_name pil_identify (_id h) →
  ∃ img, enrich_hit h w = (Ok img, (enrich_hit h w).2).
Proof.
  intros (r & b & Hrow & Hobj & Hname & Hpil).
  rewrite enrich_spec, Hrow. simpl. unfold downloaded. simpl.
  rewrite Hobj, Hname, lookup_insert_eq, Hpil. eauto.
Qed.

(** The loop over the hits adds S3 downloads to the calls and nothing else. *)
Lemma for_collect_enrich_calls hits w :
  ∃ tail, calls (for_collect enrich_hit hits w).2 = calls w ++ tail ∧
          Forall is_s3_download tail.
Proof.
  revert w. induction hits as [|h hits IH]; intros w; simpl.
  { exists []. split; [by rewrite (right_id_L [] (++))|constructor]. }
  destruct (enrich_calls h w) as (t1 & Ht1 & Hs1).
  unfold mbind, M_bind. destruct (enrich_hit h w) as [[img|e] w1] eqn:Hh; simpl in Ht1.
  - destruct (IH w1) as (t2 & Ht2 & Hs2).
    destruct (for_collect enrich_hit hits w1) as [[imgs|e] w2]; simpl in *;
      exists (t1 ++ t2); (split; [by rewrite Ht2, Ht1, (assoc_L (++))|by apply Forall_app]).
  - by exists t1.
Qed.

Lemma for_collect_enrich_es hits w : es (for_collect enrich_hit hits w).2 = es w.
Proof.
  revert w. induction hits as [|h hits IH]; intros w; simpl; [done|].
  pose proof (enrich_es h w) as H1. unfold mbind, M_bind.
  destruct (enrich_hit h w) as [[img|e] w1]; simpl in H1; [|done].
  pose proof (IH w1) as H2.
  destruct (for_collect enrich_hit hits w1) as [[imgs|e] w2]; simpl in *; congruence.
Qed.

Lemma for_collect_enrich_inv hits w images w' :
  for_collect enrich_hit hits w = (Ok images, w') →
  Forall2 (enriched_from dataset DataFrame_query s3_objects Path_name float_str)
    hits images ∧
  ∃ tail, calls w' = calls w ++ tail ∧
          Forall2 (download_for dataset DataFrame_query) hits tail.
Proof.
  revert w images. induction hits as [|h hits IH]; intros w images; simpl.
  { unfold mret, M_ret. intros [= <- <-]. split; [constructor|]. exists [].
    split; [by rewrite (right_id_L [] (++))|constructor]. }
  intros (img & w1 & Hh & (imgs & w2 & Hl & Hret)%bind_inv_ok)%bind_inv_ok.
  unfold mret, M_ret in Hret. injection Hret as <- <-.
  pose proof (enrich_enriched_from _ _ _ _ Hh) as Hfrom.
  apply enrich_ok_inv in Hh as (r & Hrow & -> & _).
  apply IH in Hl as (Hall & tail & Hcalls & Htail). split.
  - by constructor.
  - exists (S3Download (s3_data_root +:+ path r) "./data/images" :: tail). split.
    + rewrite Hcalls. simpl. by rewrite <-(assoc_L (++)).
    + constructor; [by exists r|done].
Qed.

(** The loop over the hits, step by step. *)
Lemma for_collect_enrichment hits w images w' :
  for_collect enrich_hit hits w = (Ok images, w') →
  enrichment dataset DataFrame_query s3_objects Path_name float_str hits images w w'.
Proof.
  revert w images. induction hits as [|h hits IH]; intros w images; simpl.
  { unfold mret, M_ret. by intros [= <- <-]. }
  intros (img & w1 & Hh & (imgs & w2 & Hl & Hret)%bind_inv_ok)%bind_inv_ok.
  unfold mret, M_ret in Hret. injection Hret as <- <-.
  apply enrich_ok_inv in Hh as (r & Hrow & -> & Hlabel & Hfile).
  exists r. split_and!; [done..|]. by apply IH.
Qed.

Lemma for_collect_enrich_ok hits w :
  Forall (λ h, servable dataset DataFrame_query s3_objects Path_name pil_identify (_id h))
    hits →
  ∃ images w', for_collect enrich_hit hits w = (Ok images, w').
Proof.
  revert w. induction hits as [|h hits IH]; intros w Hall; simpl; [by eexists _, _|].
  apply Forall_cons in Hall as [Hh Hall].
  destruct (enrich_servable h w Hh) as (img & Himg).
  destruct (IH (enrich_hit h w).2 Hall) as (imgs & w' & Hl).
  exists (img :: imgs), w'. erewrite bind_ok by done. by erewrite bind_ok.
Qed.

(** The loop body reads the id and the score of a hit, and nothing else. *)
Lemma enrich_source_blind h h' w :
  _id h = _id h' → _score h = _score h' → enrich_hit h w = enrich_hit h' w.
Proof. intros Hid Hscore. by rewrite !enrich_spec, Hid, Hscore. Qed.

(** [search_products] is one [es.search] and then the loop over its hits. *)
Lemma search_products_unfold embedding k w :
  search embedding k w =
  let w1 := {| es := es w; files := files w;
               calls := calls w ++ [EsSearch index_name (search_request embedding k)] |} in
  match knn_query cosinesimil (search_request embedding k) (es w) with
  | Ok hits => for_collect enrich_hit hits w1
  | Raise e => (Raise e, w1)
  end.
Proof.
  unfold search_products, es_search, remote, modify,
    step, mbind, M_bind.
  simpl. by destruct (knn_query _ _ _).
Qed.
End Query.

Lemma knn_hits_indexed cosinesimil b ix hits :
  knn_query cosinesimil b ix = Ok hits → Forall (λ h, _id h ∈ index_ids ix) hits.
Proof.
  intros (_ & _ & _ & Hhits)%knn_query_hits. apply Forall_forall. intros h Hh.
  destruct (Hhits h Hh) as (d & v & Hin & _). unfold index_ids.
  by apply (list_elem_of_fmap_2 fst) in Hin.
Qed.

(** C1. Whenever [search_products] returns, it returns one picture per hit
    of the k-NN query, in the order of the hits: at most [k] of them, each
    labelled with the score of its hit, which is the similarity of the query
    vector to the stored vector of that record, and ordered by descending
    score with equal scores in ascending order of the id. The name in the
    label is that of the row which the query [item_id == '<id>'] selects in
    [dataset] for the id of the hit. It does return when the query vector has
    the dimension of the index and, for every id of the index, that query
    selects a row and the bucket holds a picture for the row; an id for which
    the query raises, as pandas does when the id holds a quote, is not such an
    id. *)
Theorem search_products_ranked
    (dataset : list row) (DataFrame_query : string → list row → result (list nat))
    (s3_objects : string → option bytes)
    (Path_name : string → string) (float_str : Qc → string)
    (cosinesimil : vector → vector → Qc) (pil_identify : bytes → bool)
    (embedding : vector) (k : Z) (w : world) :
  (∀ images w',
     search_products dataset DataFrame_query s3_objects Path_name float_str cosinesimil
       pil_identify embedding k w = (Ok images, w') →
     ∃ hits,
       knn_query cosinesimil (search_request embedding k) (es w) = Ok hits ∧
       (length images ≤ Z.to_nat k)%nat ∧
       StronglySorted hit_order hits ∧
       (∀ h, h ∈ hits →
             ∃ d v, (_id h, d) ∈ docs (es w) ∧ d !! "embeddings" = Some (VVec v) ∧
                    _score h = cosinesimil embedding v) ∧
       Forall2 (enriched_from dataset DataFrame_query s3_objects Path_name float_str)
         hits images) ∧
  (length embedding = dimension (es w) →
   Forall (servable dataset DataFrame_query s3_objects Path_name pil_identify)
     (index_ids (es w)) →
   ∃ images w',
     search_products dataset DataFrame_query s3_objects Path_name float_str cosinesimil
       pil_identify embedding k w = (Ok images, w')).
Proof.
  split.
  - intros images w'. rewrite search_products_unfold. simpl.
    destruct (knn_query _ _ _) as [hits|e] eqn:Hq; [|done]. intros Hloop.
    exists hits. pose proof (for_collect_length _ _ _ _ _ Hloop) as Hlen.
    apply for_collect_enrich_inv in Hloop as [Hall _].
    apply knn_query_hits in Hq as (Hsize & _ & Hsorted & Hhits).
    split_and!; [done|simpl in Hsize; lia|done| |done].
    intros h Hh. destruct (Hhits h Hh) as (d & v & ? & ? & ? & _). by exists d, v.
  - intros Hdim Hserv. rewrite search_products_unfold. simpl.
    destruct (knn_query_ok cosinesimil (search_request embedding k) (es w))
      as [hits Hq]; [by right|].
    rewrite Hq. apply for_collect_enrich_ok.
    apply knn_hits_indexed in Hq. rewrite Forall_forall in Hq.
    rewrite Forall_forall in Hserv. apply Forall_forall.
    intros h Hh. by apply Hserv, Hq.
Qed.

Lemma catalogue_servable :
  Forall (servable catalogue example_query bucket basename (λ _, true))
    (index_ids (es ingested_world)).
Proof.
  repeat constructor.
  - exists rose, ("JPEG " +:+ s3_data_root +:+ path rose). by vm_compute.
  - exists broom, ("JPEG " +:+ s3_data_root +:+ path broom). by vm_compute.
  - exists pizza, ("JPEG " +:+ s3_data_root +:+ path pizza). by vm_compute.
Qed.

Lemma search_products_ranked_witness :
  ∃ images w',
    example_search catalogue [qc 1; qc 0] 2 ingested_world = (Ok images, w').
Proof.
  apply (proj2 (search_products_ranked catalogue example_query bucket basename
                  fraction_str dot_product (λ _, true) [qc 1; qc 0] 2 ingested_world)).
  - reflexivity.
  - apply catalogue_servable.
Defined.

(** The rose and the pizza are equally near the query: the rose, with the
    smaller id, comes first, and the broom is cut off by [k = 2]. *)
Example search_products_catalogue :
  (example_search catalogue [qc 1; qc 0] 2 ingested_world).1
  = Ok [ {| content := "JPEG s3://amazon-berkeley-objects/images/small/0e/rose.jpg";
            name_and_score := Some "1/1:red rose" |};
         {| content := "JPEG s3://amazon-berkeley-objects/images/small/2a/pizza.jpg";
            name_and_score := Some "1/1:pizza" |} ].
Proof. by vm_compute. Qed.

(** C2, as the query path is written. [search_products] takes an embedding
    that is already encoded and validates nothing: for every [k], also
    [k < 1], the first thing it does is one [es.search] whose body carries
    [size = k] and [k = k]; whatever it calls after that is an S3 download. *)
Theorem search_products_sends_one_search
    (dataset : list row) (DataFrame_query : string → list row → result (list nat))
    (s3_objects : string → option bytes)
    (Path_name : string → string) (float_str : Qc → string)
    (cosinesimil : vector → vector → Qc) (pil_identify : bytes → bool)
    (embedding : vector) (k : Z) (w : world) :
  ∃ tail,
    calls (search_products dataset DataFrame_query s3_objects Path_name float_str
             cosinesimil pil_identify embedding k w).2
    = calls w ++ EsSearch index_name (search_request embedding k) :: tail ∧
    Forall is_s3_download tail ∧
    body_size (search_request embedding k) = k ∧
    knn_k (search_request embedding k) = k ∧
    knn_vector (search_request embedding k) = embedding.
Proof.
  rewrite search_products_unfold. simpl.
  destruct (knn_query _ _ _) as [hits|e].
  - match goal with |- context [for_collect ?f hits ?w1] =>
      destruct (for_collect_enrich_calls dataset DataFrame_query s3_objects Path_name
                  float_str pil_identify hits w1) as (tail & Hcalls & Htail)
    end.
    exists tail. rewrite Hcalls. simpl. by rewrite <-(assoc_L (++)).
  - exists []. simpl. split_and!; [done|constructor|done..].
Qed.

(** C2, as stated, fails: with [k = 0] the search is sent to the store all
    the same, and the call returns normally. *)
Lemma search_products_accepts_k_zero :
  (example_search catalogue [qc 1; qc 0] 0 ingested_world).1 = Ok [] ∧
  drop (length (calls ingested_world))
    (calls (example_search catalogue [qc 1; qc 0] 0 ingested_world).2)
  = [EsSearch index_name (search_request [qc 1; qc 0] 0)].
Proof. split; by vm_compute. Qed.

(** C5, as the loop over the hits is written. Of a hit only [_id] and
    [_score] are read: two hits with the same id and score are treated alike,
    whatever their [_source]. For each hit in turn, the loop takes the row of
    [dataset] that the query [item_id == '<id>'] selects first, makes one S3
    download for the [path] of that row, and opens the local file
    [./data/images/<file name of the path>] as it is after that download:
    the download writes the object under its file name when the bucket holds
    one and leaves the local files as they are when it holds none, so the
    picture is then the file that was there before. The picture is labelled
    with the score of the hit and the [item_name_in_en_us] of the row. Where
    pandas compares the column to the literal, the row for an id of
    printable ASCII characters other than the quote and the backslash is the
    first row of [dataset] with the id of the hit. *)
Theorem enrichment_reads_dataset_and_bucket
    (dataset : list row) (DataFrame_query : string → list row → result (list nat))
    (s3_objects : string → option bytes)
    (Path_name : string → string) (float_str : Qc → string)
    (cosinesimil : vector → vector → Qc) (pil_identify : bytes → bool)
    (embedding : vector) (k : Z) (w : world) (images : list PilImage) (w' : world) :
  search_products dataset DataFrame_query s3_objects Path_name float_str cosinesimil
    pil_identify embedding k w = (Ok images, w') →
  ∃ hits,
    knn_query cosinesimil (search_request embedding k) (es w) = Ok hits ∧
    enrichment dataset DataFrame_query s3_objects Path_name float_str hits images
      {| es := es w; files := files w;
         calls := calls w ++ [EsSearch index_name (search_request embedding k)] |} w' ∧
    (∀ h1 h2 w0,
       _id h1 = _id h2 → _score h1 = _score h2 →
       enrich dataset DataFrame_query s3_objects Path_name float_str pil_identify h1 w0
       = enrich dataset DataFrame_query s3_objects Path_name float_str pil_identify h2 w0) ∧
    (query_selects DataFrame_query →
     ∀ h, h ∈ hits → literal (_id h) →
          ∃ i r, list_find (λ r, item_id r = _id h) dataset = Some (i, r) ∧
                 queried_row dataset DataFrame_query (_id h) = Ok r).
Proof.
  rewrite search_products_unfold. simpl.
  destruct (knn_query _ _ _) as [hits|e]; [|done]. intros Hloop.
  exists hits. split_and!; [done| |apply enrich_source_blind|].
  - by eapply for_collect_enrichment.
  - intros Hquery h Hh Hlit.
    apply for_collect_enrich_inv in Hloop as [Hall _].
    apply list_elem_of_lookup in Hh as [n Hn].
    destruct (Forall2_lookup_l _ _ _ _ _ Hall Hn) as (img & _ & r & Hrow & _).
    rewrite (queried_row_literal dataset DataFrame_query (_id h) Hquery Hlit) in Hrow.
    rewrite (queried_row_literal dataset DataFrame_query (_id h) Hquery Hlit).
    destruct (list_find _ dataset) as [[i r']|]; [|done]. by exists i, r'.
Qed.

Lemma enrichment_reads_dataset_and_bucket_witness :
  ∃ hits,
    knn_query dot_product (search_request [qc 1; qc 0] 1) (es earlier_world) = Ok hits ∧
    enrichment catalogue example_query bucket basename fraction_str hits
      [ {| content := "JPEG s3://amazon-berkeley-objects/images/small/0e/rose.jpg";
           name_and_score := Some "1/1:red rose" |} ]
      {| es := es earlier_world; files := files earlier_world;
         calls := calls earlier_world
                  ++ [EsSearch index_name (search_request [qc 1; qc 0] 1)] |}
      (example_search catalogue [qc 1; qc 0] 1 earlier_world).2 ∧
    (∀ h1 h2 w0,
       _id h1 = _id h2 → _score h1 = _score h2 →
       enrich catalogue example_query bucket basename fraction_str (λ _, true) h1 w0
       = enrich catalogue example_query bucket basename fraction_str (λ _, true) h2 w0) ∧
    (query_selects example_query →
     ∀ h, h ∈ hits → literal (_id h) →
          ∃ i r, list_find (λ r, item_id r = _id h) catalogue = Some (i, r) ∧
                 queried_row catalogue example_query (_id h) = Ok r).
Proof.
  apply (enrichment_reads_dataset_and_bucket catalogue example_query bucket basename
           fraction_str dot_product (λ _, true) [qc 1; qc 0] 1 earlier_world).
  by vm_compute.
Defined.

(** C5, as stated, fails: the record the store returns for the rose carries
    the name it was ingested with, the result is labelled with the name
    [dataset] has for that id, and the picture was fetched from S3. *)
Lemma enrichment_ignores_record_metadata :
  match knn_query dot_product (search_request [qc 1; qc 0] 1) (es earlier_world) with
  | Ok [h] => _id h = "B07ROSE" ∧
              _source h !! "item_name_in_en_us" = Some (VStr "crimson rose bouquet")
  | _ => False
  end ∧
  (example_search catalogue [qc 1; qc 0] 1 earlier_world).1
  = Ok [ {| content := "JPEG s3://amazon-berkeley-objects/images/small/0e/rose.jpg";
            name_and_score := Some "1/1:red rose" |} ] ∧
  last (calls (example_search catalogue [qc 1; qc 0] 1 earlier_world).2)
  = Some (S3Download "s3://amazon-berkeley-objects/images/small/0e/rose.jpg"
            "./data/images").
Proof. split_and!; by vm_compute. Qed.

(** C6. Against an index with zero records, for every query vector and
    every [k], [search_products] makes its one search, gets no hit and returns
    the empty list without raising; [display_images] then prints that there
    are no images and returns. *)
Theorem search_on_empty_index_is_empty
    (dataset : list row) (DataFrame_query : string → list row → result (list nat))
    (s3_objects : string → option bytes)
    (Path_name : string → string) (float_str : Qc → string)
    (cosinesimil : vector → vector → Qc) (pil_identify : bytes → bool)
    (embedding : vector) (k : Z) (w : world) :
  docs (es w) = [] →
  knn_query cosinesimil (search_request embedding k) (es w) = Ok [] ∧
  search_products dataset DataFrame_query s3_objects Path_name float_str cosinesimil
    pil_identify embedding k w
  = (Ok [], {| es := es w; files := files w;
               calls := calls w ++ [EsSearch index_name (search_request embedding k)] |}) ∧
  ∀ shown, display_images_defaults [] shown
           = (Ok tt, shown ++ [Print "No images to display."]).
Proof.
  intros Hempty.
  assert (knn_query cosinesimil (search_request embedding k) (es w) = Ok []) as Hq
    by (unfold knn_query; by rewrite decide_True).
  split_and!; [done| |done].
  rewrite search_products_unfold. simpl. by rewrite Hq.
Qed.

Lemma search_on_empty_index_is_empty_witness :
  knn_query dot_product (search_request [qc 1; qc 0; qc 5] 3) (es fresh_world) = Ok [] ∧
  example_search catalogue [qc 1; qc 0; qc 5] 3 fresh_world
  = (Ok [], {| es := es fresh_world; files := files fresh_world;
               calls := calls fresh_world
                        ++ [EsSearch index_name (search_request [qc 1; qc 0; qc 5] 3)] |}) ∧
  ∀ shown, display_images_defaults [] shown
           = (Ok tt, shown ++ [Print "No images to display."]).
Proof.
  apply (search_on_empty_index_is_empty catalogue example_query bucket basename
           fraction_str dot_product (λ _, true) [qc 1; qc 0; qc 5] 3 fresh_world).
  reflexivity.
Defined.

(** C9. The body [search_products] sends excludes [embeddings] from
    [_source]: every hit the store returns for it carries the other fields
    of its record, the item name among them, and no [embeddings] field. *)
Theorem default_projection_excludes_vector
    (cosinesimil : vector → vector → Qc) (embedding : vector) (k : Z)
    (w : world) (hits : list hit) (w' : world) :
  es_search cosinesimil (search_request embedding k) w = (Ok hits, w') →
  source_exclude (search_request embedding k) = ["embeddings"] ∧
  ∀ h, h ∈ hits →
    _source h !! "embeddings" = None ∧
    ∃ d, (_id h, d) ∈ docs (es w) ∧
         _source h !! "item_name_in_en_us" = d !! "item_name_in_en_us" ∧
         ∀ field, field ≠ "embeddings" → _source h !! field = d !! field.
Proof.
  unfold es_search, remote, modify, step, mbind, M_bind. simpl.
  destruct (knn_query _ _ _) as [hits0|e] eqn:Hq; [|done]. intros [= <- _].
  split; [done|]. intros h Hh.
  apply knn_query_hits in Hq as (_ & _ & _ & Hhits).
  destruct (Hhits h Hh) as (d & v & Hin & _ & _ & ->).
  change (source_exclude (search_request embedding k)) with ["embeddings"]. split.
  - rewrite project_lookup. by rewrite decide_True by by left.
  - exists d. split; [done|].
    assert (∀ field, field ≠ "embeddings" →
              project ["embeddings"] d !! field = d !! field) as Hother.
    { intros field Hne. rewrite project_lookup. rewrite decide_False; [done|].
      by intros ->%list_elem_of_singleton. }
    split; [by apply Hother|done].
Qed.

Lemma default_projection_excludes_vector_witness :
  source_exclude (search_request [qc 1; qc 0] 2) = ["embeddings"] ∧
  ∀ h, h ∈ match (es_search dot_product (search_request [qc 1; qc 0] 2) ingested_world).1 with
           | Ok hits => hits
           | Raise _ => []
           end →
    _source h !! "embeddings" = None ∧
    ∃ d, (_id h, d) ∈ docs (es ingested_world) ∧
         _source h !! "item_name_in_en_us" = d !! "item_name_in_en_us" ∧
         ∀ field, field ≠ "embeddings" → _source h !! field = d !! field.
Proof.
  apply (default_projection_excludes_vector dot_product [qc 1; qc 0] 2 ingested_world
           _ (es_search dot_product (search_request [qc 1; qc 0] 2) ingested_world).2).
  by vm_compute.
Defined.

(** The two hits of that search, as the store returns them. *)
Example projected_hits :
  (λ h, (_id h, _source h !! "item_name_in_en_us", _source h !! "embeddings")) <$>
    match (es_search dot_product (search_request [qc 1; qc 0] 2) ingested_world).1 with
    | Ok hits => hits
    | Raise _ => []
    end
  = [("B07ROSE", Some (VStr "red rose"), None); ("B09PIZZA", Some (VStr "pizza"), None)].
Proof. by vm_compute. Qed.

(** ** The endpoint *)

Section Endpoint.
Variable tensor : Type.
Variable json_parse : bytes → result document.
Variable pil_identify : bytes → bool.
Variable clip_tokenize : input_object → result tensor.
Variable preprocess_fn : input_object → result tensor.
Variable model_obj_encode_text : tensor → list vector.
Variable model_obj_encode_image : tensor → list vector.

Local Abbreviation serve :=
  (transform tensor json_parse pil_identify clip_tokenize preprocess_fn
     model_obj_encode_text model_obj_encode_image).

Lemma input_fn_json body trace :
  input_fn json_parse pil_identify body "application/json" trace
  = (match json_loads json_parse body with
     | Ok (Object j) =>
         match j !! "inputs" with
         | Some v => Ok (FromJson v)
         | None => Raise (KeyError "inputs")
         end
     | Ok NotObject => Raise TypeError
     | Raise e => Raise e
     end, trace ++ [JsonLoads body]).
Proof.
  unfold input_fn, assert_, emit, modify, lift, mbind, M_bind, mret, M_ret. simpl.
  destruct (json_loads json_parse body) as [[j|]|e]; simpl; [|done..].
  by destruct (j !! "inputs").
Qed.

Lemma input_fn_image body trace :
  input_fn json_parse pil_identify body "application/x-image" trace
  = (match Image_open_body pil_identify body with
     | Ok img => Ok (FromImage img)
     | Raise e => Raise e
     end, trace ++ [ImageOpen body]).
Proof.
  unfold input_fn, assert_, emit, modify, lift, mbind, M_bind, mret, M_ret. simpl.
  by destruct (Image_open_body _ _).
Qed.

Lemma input_fn_unknown body request_content_type trace :
  request_content_type ≠ "application/json" →
  request_content_type ≠ "application/x-image" →
  input_fn json_parse pil_identify body request_content_type trace
  = (Raise (AssertionError (request_content_type +:+ " is an unknown type.")), trace).
Proof.
  intros Hjson Himage. unfold input_fn, assert_. rewrite bool_decide_eq_false_2; [done|].
  intros [?|[?|?%elem_of_nil]%elem_of_cons]%elem_of_cons; done.
Qed.

(** A JSON request to the TEXT model: its ["inputs"] reach the tokenizer as
    they are. *)
Lemma transform_text j v trace :
  j !! "inputs" = Some v →
  serve "TEXT" (json_dumps j) "application/json" "application/json" trace
  = match clip_tokenize (FromJson v) with
    | Ok input_ =>
        (Ok (model_obj_encode_text input_),
         trace ++ [JsonLoads (json_dumps j); ClipTokenize (FromJson v); EncodeText])
    | Raise e =>
        (Raise e, trace ++ [JsonLoads (json_dumps j); ClipTokenize (FromJson v)])
    end.
Proof.
  intros Hv. unfold transform.
  erewrite bind_ok by (rewrite input_fn_json; simpl; rewrite Hv; done).
  unfold predict_fn, output_fn, assert_, emit, modify, lift, mbind, M_bind, mret, M_ret.
  simpl.
  destruct (clip_tokenize _); simpl; by rewrite <-!(assoc_L (++)).
Qed.
End Endpoint.

(** C8, as the handler is written. The input handler takes two content
    types. For [application/json] it parses the body, whatever the bytes
    are, and returns the ["inputs"] of the document: the parser's error when
    the bytes are no JSON text, [TypeError] when the document is no object,
    [KeyError] when the object has no ["inputs"]. For [application/x-image]
    it opens the body as an image. For every other content type its
    assertion fails, with [AssertionError] and the message
    ["<type> is an unknown type."], before the body is parsed or opened, and
    the request ends there, with no tokenizing and no inference; the script
    has no other error for an unsupported content type. *)
Theorem input_fn_content_types
    (tensor : Type) (json_parse : bytes → result document)
    (pil_identify : bytes → bool)
    (clip_tokenize preprocess_fn : input_object → result tensor)
    (model_obj_encode_text model_obj_encode_image : tensor → list vector)
    (body : request_body) (request_content_type : string) (trace : list server_event) :
  (request_content_type = "application/json" →
   input_fn json_parse pil_identify body request_content_type trace
   = (match match body with
            | json_dumps j => Ok (Object j)
            | raw_bytes b => json_parse b
            end with
      | Ok (Object j) =>
          match j !! "inputs" with
          | Some v => Ok (FromJson v)
          | None => Raise (KeyError "inputs")
          end
      | Ok NotObject => Raise TypeError
      | Raise e => Raise e
      end, trace ++ [JsonLoads body])) ∧
  (request_content_type = "application/x-image" →
   input_fn json_parse pil_identify body request_content_type trace
   = (match Image_open_body pil_identify body with
      | Ok img => Ok (FromImage img)
      | Raise e => Raise e
      end, trace ++ [ImageOpen body])) ∧
  (request_content_type ≠ "application/json" →
   request_content_type ≠ "application/x-image" →
   input_fn json_parse pil_identify body request_content_type trace
   = (Raise (AssertionError (request_content_type +:+ " is an unknown type.")), trace) ∧
   ∀ ENCODE_TYPE accept,
     transform tensor json_parse pil_identify clip_tokenize preprocess_fn
       model_obj_encode_text model_obj_encode_image ENCODE_TYPE body
       request_content_type accept trace
     = (Raise (AssertionError (request_content_type +:+ " is an unknown type.")), trace)).
Proof.
  split_and!.
  - intros ->. apply input_fn_json.
  - intros ->. apply input_fn_image.
  - intros Hjson Himage.
    pose proof (input_fn_unknown json_parse pil_identify body _ trace Hjson Himage) as Hin.
    split; [done|]. intros ENCODE_TYPE accept. unfold transform.
    by erewrite bind_raise.
Qed.

Lemma input_fn_content_types_witness :
  input_fn example_json_parse (λ _, true) (raw_bytes "item_id,item_name") "text/csv" []
  = (Raise (AssertionError "text/csv is an unknown type."), []) ∧
  ∀ ENCODE_TYPE accept,
    transform (list nat) example_json_parse (λ _, true) char_tokenize (λ _, Ok [])
      (λ input_, [qc <$> (Z.of_nat <$> input_)]) (λ _, [])
      ENCODE_TYPE (raw_bytes "item_id,item_name") "text/csv" accept []
    = (Raise (AssertionError "text/csv is an unknown type."), []).
Proof.
  apply (input_fn_content_types (list nat) example_json_parse (λ _, true) char_tokenize
           (λ _, Ok []) (λ input_, [qc <$> (Z.of_nat <$> input_)]) (λ _, [])
           (raw_bytes "item_id,item_name") "text/csv" []); by vm_compute.
Defined.

(** C8, as stated, fails: a request with content type [text/csv] ends in the
    [AssertionError] of the handler's [assert], which is not the
    [UnsupportedMediaType] of the endpoint's contract; the handler raises
    that error for no request. *)
Lemma unsupported_content_type_is_an_assertion_error :
  (input_fn example_json_parse (λ _, true) (raw_bytes "item_id,item_name") "text/csv" []).1
  = Raise (AssertionError "text/csv is an unknown type.") ∧
  (input_fn example_json_parse (λ _, true) (raw_bytes "item_id,item_name") "text/csv" []).1
  ≠ Raise UnsupportedMediaType.
Proof. split; by vm_compute. Qed.

(** JSON text that arrives as plain bytes is parsed like any other body, and
    a document that is no object has no ["inputs"]. *)
Example input_fn_parses_bytes :
  (input_fn example_json_parse (λ _, true) (raw_bytes inputs_text)
     "application/json" []).1
  = Ok (FromJson (VVec [qc 1; qc 0])) ∧
  (input_fn example_json_parse (λ _, true) (raw_bytes "[1, 0]") "application/json" []).1
  = Raise TypeError ∧
  (input_fn example_json_parse (λ _, true) (raw_bytes "item_id,item_name")
     "application/json" []).1
  = Raise JSONDecodeError.
Proof. split_and!; by vm_compute. Qed.

(** C7. [encode_name] builds the prompt itself: the one request it makes
    goes to the text model and carries the JSON document
    [{"inputs": ["this is a " + item_name]}]. The endpoint does not touch the
    text: the handler returns the ["inputs"] of the document as they are and,
    for the TEXT model, the tokenizer is applied to exactly that value, so the
    vector returned is the first row of what the text encoder makes of the
    tokens of ["this is a " + item_name]. *)
Theorem encode_name_templates_prompt
    (tensor : Type) (json_parse : bytes → result document)
    (pil_identify : bytes → bool)
    (clip_tokenize preprocess_fn : input_object → result tensor)
    (model_obj_encode_text model_obj_encode_image : tensor → list vector)
    (item_name : string) (w : world) :
  encode_name tensor json_parse pil_identify clip_tokenize preprocess_fn
    model_obj_encode_text model_obj_encode_image item_name w
  = (match clip_tokenize (FromJson (VStrs ["this is a " +:+ item_name])) with
     | Ok input_ =>
         match model_obj_encode_text input_ with
         | x :: _ => Ok x
         | [] => Raise IndexError
         end
     | Raise e => Raise e
     end,
     {| es := es w; files := files w;
        calls := calls w ++ [InvokeEndpoint "clip-text-model" "application/json"
                               (json_dumps (text_payload item_name))] |}) ∧
  text_payload item_name !! "inputs" = Some (VStrs ["this is a " +:+ item_name]) ∧
  dom (text_payload item_name) = ({[ "inputs" ]} : gset string) ∧
  ∀ j v trace,
    j !! "inputs" = Some v →
    transform tensor json_parse pil_identify clip_tokenize preprocess_fn
      model_obj_encode_text model_obj_encode_image "TEXT" (json_dumps j)
      "application/json" "application/json" trace
    = match clip_tokenize (FromJson v) with
      | Ok input_ =>
          (Ok (model_obj_encode_text input_),
           trace ++ [JsonLoads (json_dumps j); ClipTokenize (FromJson v); EncodeText])
      | Raise e =>
          (Raise e, trace ++ [JsonLoads (json_dumps j); ClipTokenize (FromJson v)])
      end.
Proof.
  assert (text_payload item_name !! "inputs" = Some (VStrs ["this is a " +:+ item_name]))
    as Hinputs by apply lookup_singleton_eq.
  split_and!; [|done|apply dom_singleton_L|apply transform_text].
  unfold encode_name, text_predictor_predict, predictor_predict, remote, modify, lift,
    first, mbind, M_bind, mret, M_ret, raise.
  fold (text_payload item_name). simpl.
  rewrite (transform_text _ _ _ _ _ _ _ _ _ [] Hinputs).
  destruct (clip_tokenize _) as [input_|e]; simpl; [|done].
  by destruct (model_obj_encode_text input_).
Qed.

(** With a tokenizer that counts characters, the text model is handed the
    fourteen characters of the prompt for "rose". *)
Example encode_name_rose :
  (encode_name (list nat) example_json_parse (λ _, true) char_tokenize (λ _, Ok [])
     (λ input_, [qc <$> (Z.of_nat <$> input_)]) (λ _, []) "rose" fresh_world).1
  = Ok [qc 14].
Proof. by vm_compute. Qed.

(** ** Preparing the catalogue *)

Lemma func_list_find x :
  func_ x = (item_value ∘ snd) <$> list_find (λ item, language_tag item = "en_US") x.
Proof.
  unfold func_. induction x as [|item x IH]; [done|].
  rewrite filter_cons. cbn [list_find]. case_decide; [done|].
  rewrite IH. by destruct (list_find _ x) as [[??]|].
Qed.

(** X1. [func_] returns the value of the first entry tagged [en_US], and
    [None] exactly when no entry carries that tag (so also on the empty
    list). *)
Theorem func_first_us_name (x : list name_item) :
  (∀ v, func_ x = Some v ↔
        ∃ i item, x !! i = Some item ∧ language_tag item = "en_US" ∧
                  item_value item = v ∧
                  ∀ j item', x !! j = Some item' → (j < i)%nat →
                             language_tag item' ≠ "en_US") ∧
  (func_ x = None ↔ Forall (λ item, language_tag item ≠ "en_US") x).
Proof.
  rewrite func_list_find. split.
  - intros v. split.
    + destruct (list_find _ x) as [[i item]|] eqn:Hfind; [|done].
      intros [= <-]. apply list_find_Some in Hfind as (? & ? & ?). by exists i, item.
    + intros (i & item & Hi & Htag & <- & Hfirst).
      erewrite (proj2 (list_find_Some _ x i item)); [done|]. by split_and!.
  - rewrite fmap_None. apply list_find_None.
Qed.

Lemma elem_of_first_occurrences x l : x ∈ first_occurrences l ↔ x ∈ l.
Proof.
  induction l as [|y l IH]; simpl; [done|].
  rewrite !elem_of_cons, list_elem_of_filter, IH.
  split.
  - intros [?|[_ ?]]; [by left|by right].
  - intros [?|?]; [by left|]. destruct (decide (x = y)); [by left|by right].
Qed.

(** X2. A row is in [dataset] exactly when it joins a listing that has a
    US-English name with a line of the image metadata whose [image_id] is the
    listing's [main_image_id]: the row carries the listing's id and its first
    US-English name, and the id, size and path of the image. Listings without
    such a name or without a matching image give no row. *)
Theorem dataset_rows_join_listing_and_image
    (listings : list listing) (image_meta : list image_meta_row) (r : row) :
  r ∈ dataset_of listings image_meta ↔
  ∃ l i name,
    l ∈ listings ∧ i ∈ image_meta ∧
    func_ (item_name l) = Some name ∧
    listing_main_image_id l = Some (csv_image_id i) ∧
    r = {| item_id := listing_item_id l;
           item_name_in_en_us := name;
           main_image_id := csv_image_id i;
           image_id := csv_image_id i;
           height := csv_height i;
           width := csv_width i;
           path := csv_path i |}.
Proof.
  unfold dataset_of, merge, meta_of. rewrite list_elem_of_bind. split.
  - intros (key & (m & (i & Hr & Hi)%list_elem_of_bind & Hm)%list_elem_of_bind & _).
    apply list_elem_of_filter in Hm as [Hkey Hm].
    apply list_elem_of_omap in Hm as (l & Hl & Hm).
    destruct (func_ (item_name l)) as [name|] eqn:Hname; [|done].
    injection Hm as <-. simpl in *.
    apply list_elem_of_filter in Hi as [<- Hi].
    apply list_elem_of_singleton in Hr. by exists l, i, name.
  - intros (l & i & name & Hl & Hi & Hname & Hkey & ->).
    set (m := {| meta_item_id := listing_item_id l;
                 meta_item_name_in_en_us := name;
                 meta_main_image_id := listing_main_image_id l |}).
    assert (m ∈ omap (λ l, name ← func_ (item_name l);
                           Some {| meta_item_id := listing_item_id l;
                                   meta_item_name_in_en_us := name;
                                   meta_main_image_id := listing_main_image_id l |})
                     listings) as Hm.
    { apply list_elem_of_omap. exists l. split; [done|]. by rewrite Hname. }
    exists (csv_image_id i). split.
    + apply list_elem_of_bind. exists m. split.
      * apply list_elem_of_bind. exists i.
        split; [by apply list_elem_of_singleton|]. by apply list_elem_of_filter.
      * by apply list_elem_of_filter.
    + apply elem_of_first_occurrences, list_elem_of_omap. by exists m.
Qed.

(** The two listings of the rose's picture come together, before the broom
    that stands between them in the listings. *)
Example dataset_rows_by_key :
  item_id <$> dataset_of [rose_listing; broom_listing; bouquet_listing]
                [broom_image; rose_image]
  = ["B07ROSE"; "B02BOUQUET"; "B01BROOM"].
Proof. by vm_compute. Qed.

(** ** Fetching the picture of an item, continued *)

Lemma literal_char_not_quote c : literal_char c → nat_of_ascii c ≠ 39.
Proof.
  unfold literal_char. intros (_ & Hquote & _)%bool_decide_unpack. done.
Qed.

Lemma read_literal_closed iid rest :
  literal iid → read_literal (iid +:+ String "039"%char rest) = Some (iid, rest).
Proof.
  induction iid as [|c iid IH]; intros Hlit; simpl in *; [done|].
  apply andb_prop_elim in Hlit as [Hc Hiid].
  rewrite decide_False by by apply literal_char_not_quote.
  destruct (literal_char c); [|done]. by rewrite IH.
Qed.

Lemma strip_prefix_app p s : strip_prefix p (p +:+ s) = Some s.
Proof. induction p as [|c p IH]; simpl; [done|]. by rewrite decide_True. Qed.

(** The evaluator of the examples compares the column to the literal. *)
Lemma example_query_selects : query_selects example_query.
Proof.
  intros iid frame Hlit. unfold example_query.
  destruct (String.length (item_id_query iid)) as [|fuel] eqn:Hlen; [done|].
  unfold item_id_query. cbn [read_comparisons].
  rewrite strip_prefix_app. cbn [mbind option_bind].
  rewrite (read_literal_closed iid EmptyString Hlit). simpl.
  unfold rows_with. do 2 f_equal.
  apply list_filter_iff. intros p. by rewrite list_elem_of_singleton.
Qed.

(** X3. [get_image_from_item_id] downloads nothing when its lookup fails:
    the exception of the query, or the [IndexError] of a query that selects
    no row, is raised at once, whatever [return_image] is, and no file is
    written. Where pandas compares the column to the literal, an id of
    printable ASCII characters other than the quote and the backslash that
    no row of [dataset] carries ends in that [IndexError]. *)
Theorem get_image_of_unknown_id
    (dataset : list row) (DataFrame_query : string → list row → result (list nat))
    (s3_objects : string → option bytes)
    (Path_name : string → string) (pil_identify : bytes → bool)
    (iid : string) (return_image : bool) (w : world) :
  (∀ e, queried_row dataset DataFrame_query iid = Raise e →
        get_image_from_item_id dataset DataFrame_query s3_objects Path_name pil_identify
          iid return_image w
        = (Raise e, w)) ∧
  (DataFrame_query (item_id_query iid) dataset = Ok [] →
   get_image_from_item_id dataset DataFrame_query s3_objects Path_name pil_identify
     iid return_image w
   = (Raise IndexError, w)) ∧
  (query_selects DataFrame_query → literal iid → iid ∉ item_id <$> dataset →
   get_image_from_item_id dataset DataFrame_query s3_objects Path_name pil_identify
     iid return_image w
   = (Raise IndexError, w)).
Proof.
  split_and!.
  - intros e Hrow. by rewrite get_image_spec, Hrow.
  - intros Hnone. rewrite get_image_spec. unfold queried_row. by rewrite Hnone.
  - intros Hquery Hlit Hni. rewrite get_image_spec, queried_row_literal by done.
    by rewrite list_find_absent_id.
Qed.

Lemma get_image_of_unknown_id_witness :
  get_image_from_item_id catalogue example_query bucket basename (λ _, true)
    "B00NONE" true fresh_world
  = (Raise IndexError, fresh_world).
Proof.
  apply (get_image_of_unknown_id catalogue example_query bucket basename (λ _, true)
           "B00NONE" true fresh_world).
  - apply example_query_selects.
  - reflexivity.
  - apply (bool_decide_unpack _). by vm_compute.
Defined.

(** X4. With [return_image=False], for an id of printable ASCII characters
    other than the quote and the backslash that [dataset] carries, and where
    pandas compares the column to the literal, [get_image_from_item_id]
    never opens a file: after the one
    download for the first row with that id it returns the local path
    [./data/images/<file name>] and the name of that row, whether or not the
    bucket has the object and whether or not it is an image. *)
Theorem get_image_path_without_opening
    (dataset : list row) (DataFrame_query : string → list row → result (list nat))
    (s3_objects : string → option bytes)
    (Path_name : string → string) (pil_identify : bytes → bool)
    (iid : string) (w : world) :
  query_selects DataFrame_query → literal iid →
  iid ∈ item_id <$> dataset →
  ∃ i r,
    dataset !! i = Some r ∧ item_id r = iid ∧
    (∀ j r', dataset !! j = Some r' → (j < i)%nat → item_id r' ≠ iid) ∧
    get_image_from_item_id dataset DataFrame_query s3_objects Path_name pil_identify
      iid false w
    = (Ok (APath ("./data/images/" +:+ Path_name (path r)), item_name_in_en_us r),
       downloaded s3_objects Path_name (s3_data_root +:+ path r) "./data/images" w) ∧
    calls (downloaded s3_objects Path_name (s3_data_root +:+ path r) "./data/images" w)
    = calls w ++ [S3Download (s3_data_root +:+ path r) "./data/images"] ∧
    files (downloaded s3_objects Path_name (s3_data_root +:+ path r) "./data/images" w)
    = match s3_objects (s3_data_root +:+ path r) with
      | Some b =>
          <["./data/images/" +:+ Path_name (s3_data_root +:+ path r) := b]> (files w)
      | None => files w
      end.
Proof.
  intros Hquery Hlit (i & r & Hfind)%first_row_with_id. exists i, r.
  rewrite get_image_spec, queried_row_literal, Hfind by done.
  apply list_find_Some in Hfind as (Hi & Hid & Hfirst). by split_and!.
Qed.

Lemma get_image_path_without_opening_witness :
  ∃ i r,
    catalogue !! i = Some r ∧ item_id r = "B09PIZZA" ∧
    (∀ j r', catalogue !! j = Some r' → (j < i)%nat → item_id r' ≠ "B09PIZZA") ∧
    get_image_from_item_id catalogue example_query (λ _, None) basename (λ _, false)
      "B09PIZZA" false fresh_world
    = (Ok (APath ("./data/images/" +:+ basename (path r)), item_name_in_en_us r),
       downloaded (λ _, None) basename (s3_data_root +:+ path r) "./data/images"
         fresh_world) ∧
    calls (downloaded (λ _, None) basename (s3_data_root +:+ path r) "./data/images"
             fresh_world)
    = calls fresh_world ++ [S3Download (s3_data_root +:+ path r) "./data/images"] ∧
    files (downloaded (λ _, None) basename (s3_data_root +:+ path r) "./data/images"
             fresh_world)
    = files fresh_world.
Proof.
  apply (get_image_path_without_opening catalogue example_query (λ _, None) basename
           (λ _, false) "B09PIZZA" fresh_world).
  - apply example_query_selects.
  - reflexivity.
  - apply (bool_decide_unpack _). by vm_compute.
Defined.

(** X5. For an id for which the query selects a row whose object is in the
    bucket, an image that the download stores under the name the function
    computes, [get_image_from_item_id] returns that object opened as a
    picture, with no [name_and_score] attribute yet, and the name of the
    row; the object is then in [./data/images], no other file has changed,
    the index is untouched and the one call made is the download. Where
    pandas compares the column to the literal, the row of an id of printable
    ASCII characters other than the quote and the backslash is the first row
    of [dataset] with that id. *)
Theorem get_image_returns_bucket_object
    (dataset : list row) (DataFrame_query : string → list row → result (list nat))
    (s3_objects : string → option bytes)
    (Path_name : string → string) (pil_identify : bytes → bool)
    (iid : string) (w : world) :
  servable dataset DataFrame_query s3_objects Path_name pil_identify iid →
  ∃ r b w',
    queried_row dataset DataFrame_query iid = Ok r ∧
    s3_objects (s3_data_root +:+ path r) = Some b ∧
    get_image_from_item_id dataset DataFrame_query s3_objects Path_name pil_identify
      iid true w
    = (Ok (AnImage {| content := b; name_and_score := None |}, item_name_in_en_us r), w') ∧
    files w' !! ("./data/images/" +:+ Path_name (path r)) = Some b ∧
    (∀ file, file ≠ "./data/images/" +:+ Path_name (path r) →
             files w' !! file = files w !! file) ∧
    es w' = es w ∧
    calls w' = calls w ++ [S3Download (s3_data_root +:+ path r) "./data/images"] ∧
    (query_selects DataFrame_query → literal iid →
     ∃ i, list_find (λ r, item_id r = iid) dataset = Some (i, r)).
Proof.
  intros (r & b & Hrow & Hobj & Hname & Hpil).
  exists r, b, (downloaded s3_objects Path_name (s3_data_root +:+ path r)
                  "./data/images" w).
  rewrite get_image_spec, Hrow. unfold downloaded. simpl.
  rewrite Hobj, Hname, lookup_insert_eq, Hpil. split_and!; try done.
  - apply (lookup_insert_eq (files w)).
  - intros file Hne. apply lookup_insert_ne. intros Heq. apply Hne. by rewrite <-Heq.
  - intros Hquery Hlit. rewrite queried_row_literal in Hrow by done.
    destruct (list_find _ dataset) as [[i r']|]; [|done].
    injection Hrow as ->. by exists i.
Qed.

Lemma get_image_returns_bucket_object_witness :
  ∃ r b w',
    queried_row catalogue example_query "B07ROSE" = Ok r ∧
    bucket (s3_data_root +:+ path r) = Some b ∧
    get_image_from_item_id catalogue example_query bucket basename (λ _, true)
      "B07ROSE" true fresh_world
    = (Ok (AnImage {| content := b; name_and_score := None |}, item_name_in_en_us r), w') ∧
    files w' !! ("./data/images/" +:+ basename (path r)) = Some b ∧
    (∀ file, file ≠ "./data/images/" +:+ basename (path r) →
             files w' !! file = files fresh_world !! file) ∧
    es w' = es fresh_world ∧
    calls w' = calls fresh_world ++ [S3Download (s3_data_root +:+ path r) "./data/images"] ∧
    (query_selects example_query → literal "B07ROSE" →
     ∃ i, list_find (λ r, item_id r = "B07ROSE") catalogue = Some (i, r)).
Proof.
  apply (get_image_returns_bucket_object catalogue example_query bucket basename
           (λ _, true) "B07ROSE" fresh_world).
  exists rose, ("JPEG " +:+ s3_data_root +:+ path rose). by vm_compute.
Defined.

(** An id that holds a quote does not reach the frame as a literal: the
    expression that results is refused, or it is another expression, which
    can select a row although no row carries the id. *)
Example example_query_quoted_ids :
  example_query (item_id_query "O'NEIL") catalogue = Raise SyntaxError ∧
  example_query (item_id_query "B00NONE' or item_id == 'B07ROSE") catalogue = Ok [0%nat] ∧
  "B00NONE' or item_id == 'B07ROSE" ∉ item_id <$> catalogue.
Proof. split_and!; [by vm_compute..|]. apply (bool_decide_unpack _). by vm_compute. Qed.

(** ** The endpoint, continued *)

Section Predict.
Variable tensor : Type.
Variable json_parse : bytes → result document.
Variable pil_identify : bytes → bool.
Variable clip_tokenize : input_object → result tensor.
Variable preprocess_fn : input_object → result tensor.
Variable model_obj_encode_text : tensor → list vector.
Variable model_obj_encode_image : tensor → list vector.

Local Abbreviation predict :=
  (predict_fn tensor clip_tokenize preprocess_fn model_obj_encode_text
     model_obj_encode_image).

Lemma predict_fn_text x trace :
  predict "TEXT" x trace
  = match clip_tokenize x with
    | Ok input_ =>
        (Ok (model_obj_encode_text input_), trace ++ [ClipTokenize x; EncodeText])
    | Raise e => (Raise e, trace ++ [ClipTokenize x])
    end.
Proof.
  unfold predict_fn, assert_, emit, modify, lift, mbind, M_bind, mret, M_ret. simpl.
  destruct (clip_tokenize x); simpl; by rewrite <-?(assoc_L (++)).
Qed.

Lemma predict_fn_image x trace :
  predict "IMAGE" x trace
  = match preprocess_fn x with
    | Ok input_ =>
        (Ok (model_obj_encode_image input_), trace ++ [Preprocess x; EncodeImage])
    | Raise e => (Raise e, trace ++ [Preprocess x])
    end.
Proof.
  unfold predict_fn, assert_, emit, modify, lift, mbind, M_bind, mret, M_ret. simpl.
  destruct (preprocess_fn x); simpl; by rewrite <-?(assoc_L (++)).
Qed.

Lemma predict_fn_unknown ENCODE_TYPE x trace :
  ENCODE_TYPE ≠ "TEXT" → ENCODE_TYPE ≠ "IMAGE" →
  predict ENCODE_TYPE x trace
  = (Raise (AssertionError (ENCODE_TYPE +:+ " is an unknown encode type.")), trace).
Proof.
  intros Htext Himage. unfold predict_fn, assert_.
  rewrite bool_decide_eq_false_2; [done|].
  intros [?|[?|?%elem_of_nil]%elem_of_cons]%elem_of_cons; done.
Qed.

(** A request with image bytes to the IMAGE model. *)
Lemma transform_image b trace :
  transform tensor json_parse pil_identify clip_tokenize preprocess_fn
    model_obj_encode_text model_obj_encode_image "IMAGE" (raw_bytes b)
    "application/x-image" "application/json" trace
  = if pil_identify b then
      let x := FromImage {| content := b; name_and_score := None |} in
      match preprocess_fn x with
      | Ok input_ =>
          (Ok (model_obj_encode_image input_),
           trace ++ [ImageOpen (raw_bytes b); Preprocess x; EncodeImage])
      | Raise e => (Raise e, trace ++ [ImageOpen (raw_bytes b); Preprocess x])
      end
    else (Raise UnidentifiedImageError, trace ++ [ImageOpen (raw_bytes b)]).
Proof.
  unfold transform, mbind, M_bind. rewrite input_fn_image. simpl.
  unfold Image_open. destruct (pil_identify b); [|done].
  rewrite predict_fn_image. destruct (preprocess_fn _) as [input_|e].
  - unfold output_fn, assert_, mbind, M_bind, mret, M_ret. simpl.
    by rewrite <-(assoc_L (++)).
  - by rewrite <-(assoc_L (++)).
Qed.
End Predict.

(** X6. [predict_fn] runs the encoder of its [ENCODE_TYPE] only. For [TEXT]
    it tokenizes the input and encodes the tokens as text; for [IMAGE] it
    preprocesses the input and encodes the result as an image; when the
    tokenizer or the preprocessing raises, no encoder runs. For any other
    value its assertion fails before anything is tokenized, preprocessed or
    encoded. A process started without the variable serves [TEXT]. *)
Theorem predict_fn_by_encode_type
    (tensor : Type) (clip_tokenize preprocess_fn : input_object → result tensor)
    (model_obj_encode_text model_obj_encode_image : tensor → list vector)
    (ENCODE_TYPE : string) (x : input_object) (trace : list server_event) :
  (ENCODE_TYPE = "TEXT" →
   predict_fn tensor clip_tokenize preprocess_fn model_obj_encode_text
     model_obj_encode_image ENCODE_TYPE x trace
   = match clip_tokenize x with
     | Ok input_ =>
         (Ok (model_obj_encode_text input_), trace ++ [ClipTokenize x; EncodeText])
     | Raise e => (Raise e, trace ++ [ClipTokenize x])
     end) ∧
  (ENCODE_TYPE = "IMAGE" →
   predict_fn tensor clip_tokenize preprocess_fn model_obj_encode_text
     model_obj_encode_image ENCODE_TYPE x trace
   = match preprocess_fn x with
     | Ok input_ =>
         (Ok (model_obj_encode_image input_), trace ++ [Preprocess x; EncodeImage])
     | Raise e => (Raise e, trace ++ [Preprocess x])
     end) ∧
  (ENCODE_TYPE ≠ "TEXT" → ENCODE_TYPE ≠ "IMAGE" →
   predict_fn tensor clip_tokenize preprocess_fn model_obj_encode_text
     model_obj_encode_image ENCODE_TYPE x trace
   = (Raise (AssertionError (ENCODE_TYPE +:+ " is an unknown encode type.")), trace)) ∧
  (∀ environ, environ !! "ENCODE_TYPE" = None → ENCODE_TYPE_of environ = "TEXT").
Proof.
  split_and!.
  - intros ->. apply predict_fn_text.
  - intros ->. apply predict_fn_image.
  - apply predict_fn_unknown.
  - intros environ Hunset. unfold ENCODE_TYPE_of, environ_get. by rewrite Hunset.
Qed.

Lemma predict_fn_by_encode_type_witness :
  predict_fn (list nat) char_tokenize (λ _, Ok []) (λ input_, [qc <$> (Z.of_nat <$> input_)])
    (λ _, []) "AUDIO" (FromJson (VStr "a bell")) []
  = (Raise (AssertionError "AUDIO is an unknown encode type."), []).
Proof.
  apply (predict_fn_by_encode_type (list nat) char_tokenize (λ _, Ok [])
           (λ input_, [qc <$> (Z.of_nat <$> input_)]) (λ _, [])
           "AUDIO" (FromJson (VStr "a bell")) []); by vm_compute.
Defined.

(** X7. [encode_image] reads the file before it calls the endpoint: for a
    missing file it raises [FileNotFoundError] and no request is made.
    Otherwise it makes one request, to the image model, with content type
    [application/x-image] and the bytes of the file as they are; the vector
    it returns is the first row of what the image encoder makes of the
    preprocessed picture, and bytes that are no image end in
    [UnidentifiedImageError] on the endpoint. *)
Theorem encode_image_sends_file_bytes
    (tensor : Type) (json_parse : bytes → result document)
    (pil_identify : bytes → bool)
    (clip_tokenize preprocess_fn : input_object → result tensor)
    (model_obj_encode_text model_obj_encode_image : tensor → list vector)
    (file_name : string) (w : world) :
  encode_image tensor json_parse pil_identify clip_tokenize preprocess_fn
    model_obj_encode_text model_obj_encode_image file_name w
  = match files w !! file_name with
    | None => (Raise (FileNotFoundError file_name), w)
    | Some payload =>
        (if pil_identify payload then
           match preprocess_fn (FromImage {| content := payload; name_and_score := None |}) with
           | Ok input_ =>
               match model_obj_encode_image input_ with
               | x :: _ => Ok x
               | [] => Raise IndexError
               end
           | Raise e => Raise e
           end
         else Raise UnidentifiedImageError,
         {| es := es w; files := files w;
            calls := calls w ++ [InvokeEndpoint "clip-image-model" "application/x-image"
                                   (raw_bytes payload)] |})
    end.
Proof.
  unfold encode_image, read_file, step, image_predictor_predict, predictor_predict,
    remote, modify, lift, first, mbind, M_bind, mret, M_ret, raise.
  destruct (files w !! file_name) as [payload|] eqn:Hfile; simpl; [|done].
  rewrite transform_image. destruct (pil_identify payload); simpl; [|done].
  destruct (preprocess_fn _) as [input_|e]; simpl; [|done].
  by destruct (model_obj_encode_image input_).
Qed.

(** ** Loading the embeddings *)

Lemma for_collect_app {S A B} (f : A → M S B) l1 l2 s :
  for_collect f (l1 ++ l2) s =
  match for_collect f l1 s with
  | (Ok ys1, s1) =>
      match for_collect f l2 s1 with
      | (Ok ys2, s2) => (Ok (ys1 ++ ys2), s2)
      | (Raise e, s2) => (Raise e, s2)
      end
  | (Raise e, s1) => (Raise e, s1)
  end.
Proof.
  revert s. induction l1 as [|x l1 IH]; intros s.
  - cbn. by destruct (for_collect f l2 s) as [[?|?] ?].
  - cbn. unfold mbind, M_bind, mret, M_ret.
    destruct (f x s) as [[y|e] s1]; [|done].
    rewrite IH. destruct (for_collect f l1 s1) as [[ys1|e] s2]; [|done].
    by destruct (for_collect f l2 s2) as [[ys2|e] s3].
Qed.

Section Loading.
Variable json_load : bytes → result (list vector).

(** One turn of the loading loop, in every case. *)
Lemma load_embedding_spec record w loaded :
  load_embedding json_load record (w, loaded) =
  match files w !! embedding_file record with
  | None => (Raise (FileNotFoundError (embedding_file record)), (w, loaded))
  | Some b =>
      match json_load b with
      | Ok (v :: _) => (Ok tt, (w, loaded ++ [v]))
      | Ok [] => (Raise IndexError, (w, loaded))
      | Raise e => (Raise e, (w, loaded))
      end
  end.
Proof.
  unfold load_embedding, in_world, embeddings_append, read_file, step, lift, first,
    modify, mbind, M_bind, mret, M_ret, raise. simpl.
  destruct (files w !! _) as [b|]; [|done]. by destruct (json_load b) as [[|v vs]|e].
Qed.

Lemma load_embedding_ok_iff record w loaded s' :
  load_embedding json_load record (w, loaded) = (Ok tt, s') ↔
  ∃ v, loadable json_load w record v ∧ s' = (w, loaded ++ [v]).
Proof.
  rewrite load_embedding_spec. unfold loadable. split.
  - destruct (files w !! _) as [b|]; [|done].
    destruct (json_load b) as [[|v0 vs]|e] eqn:Hb; try done.
    intros [= <-]. exists v0. split; [|done]. by exists b, vs.
  - intros (v & (b & vs & -> & ->) & ->). done.
Qed.

Lemma load_rows_ok_iff dataset w loaded s' :
  for_each (load_embedding json_load) dataset (w, loaded) = (Ok tt, s') ↔
  ∃ vs, Forall2 (loadable json_load w) dataset vs ∧ s' = (w, loaded ++ vs).
Proof.
  revert loaded s'. induction dataset as [|r dataset IH]; intros loaded s'; simpl.
  - unfold mret, M_ret. split.
    + intros [= <-]. exists []. by rewrite (right_id_L [] (++)).
    + intros (vs & ->%Forall2_nil_inv_l & ->). by rewrite (right_id_L [] (++)).
  - split.
    + intros ([] & s1 & (v & Hv & ->)%load_embedding_ok_iff
                 & (vs & Hvs & ->)%IH)%bind_inv_ok.
      exists (v :: vs). split; [by constructor|]. by rewrite <-(assoc_L (++)).
    + intros (vs0 & (v & vs & Hv & Hvs & ->)%Forall2_cons_inv_l & ->).
      erewrite bind_ok by (apply load_embedding_ok_iff; by exists v).
      apply IH. exists vs. split; [done|]. by rewrite <-(assoc_L (++)).
Qed.

Lemma load_embeddings_ok_iff dataset w old embeddings w' :
  load_embeddings json_load dataset (w, old) = (Ok tt, (w', embeddings)) ↔
  Forall2 (loadable json_load w) dataset embeddings ∧ w' = w.
Proof.
  unfold load_embeddings, modify, mbind, M_bind. simpl. rewrite load_rows_ok_iff. split.
  - intros (vs & Hvs & [= -> ->]). done.
  - intros [Hvs ->]. by exists embeddings.
Qed.
End Loading.

(** X8. The loop that fills [embeddings] completes exactly when every row
    of [dataset] has its output file [./data/embedding/<path>.out] and the
    file parses to a list with a first vector. It then leaves the world as
    it was, and [embeddings], whatever it held before the cell, has one
    vector per row, in the order of the rows: the first vector of the row's
    file. *)
Theorem load_embeddings_one_per_row
    (json_load : bytes → result (list vector)) (dataset : list row) (w : world)
    (old embeddings : list vector) (w' : world) :
  load_embeddings json_load dataset (w, old) = (Ok tt, (w', embeddings)) ↔
  w' = w ∧ length embeddings = length dataset ∧
  ∀ idx record v,
    dataset !! idx = Some record → embeddings !! idx = Some v →
    ∃ b vs, files w !! (embedding_root_path +:+ "/" +:+ path record +:+ ".out") = Some b ∧
            json_load b = Ok (v :: vs).
Proof.
  rewrite load_embeddings_ok_iff, Forall2_same_length_lookup. split.
  - intros [[Hlen Hall] ->]. split_and!; [done..|]. exact Hall.
  - intros (-> & Hlen & Hall). split; [|done]. split; [done|]. exact Hall.
Qed.

(** X9. When the output file of a row is missing and the rows before it
    loaded, the loop raises [FileNotFoundError] for that file. The list
    [embeddings], emptied at the start of the cell and appended to in place,
    then holds the vectors of the rows before that row and nothing else: it
    is shorter than [dataset]. No file has changed. *)
Theorem load_embeddings_stops_at_missing_file
    (json_load : bytes → result (list vector)) (pre : list row) (record : row)
    (post : list row) (loaded old : list vector) (w : world) :
  Forall2 (loadable json_load w) pre loaded →
  files w !! embedding_file record = None →
  load_embeddings json_load (pre ++ record :: post) (w, old)
  = (Raise (FileNotFoundError (embedding_root_path +:+ "/" +:+ path record +:+ ".out")),
     (w, loaded)) ∧
  length loaded = length pre ∧
  (length loaded < length (pre ++ record :: post))%nat.
Proof.
  intros Hpre Hmissing. split_and!.
  - unfold load_embeddings, modify, mbind, M_bind. simpl. rewrite for_each_app.
    rewrite (proj2 (load_rows_ok_iff json_load pre w [] (w, [] ++ loaded)))
      by by exists loaded.
    simpl. erewrite bind_raise; [done|]. by rewrite load_embedding_spec, Hmissing.
  - symmetry. by eapply Forall2_length.
  - apply Forall2_length in Hpre. rewrite length_app. simpl. lia.
Qed.

Lemma load_embeddings_stops_at_missing_file_witness :
  load_embeddings example_json_load ([rose] ++ broom :: [pizza])
    (rose_only_world, [[qc 5; qc 5]])
  = (Raise (FileNotFoundError "./data/embedding/1f/broom.jpg.out"),
     (rose_only_world, [[qc 1; qc 0]])) ∧
  length [[qc 1; qc 0]] = length [rose] ∧
  (length [[qc 1; qc 0]] < length ([rose] ++ broom :: [pizza]))%nat.
Proof.
  apply (load_embeddings_stops_at_missing_file example_json_load [rose] broom [pizza]
           [[qc 1; qc 0]] [[qc 5; qc 5]] rose_only_world).
  - repeat constructor. by exists "[[1, 0]]", [].
  - reflexivity.
Defined.

(** ** The ingestion loop, whatever its outcome *)

Lemma after_ingest_one_frame embeddings p w :
  row_ok embeddings (dimension (es w)) p →
  files (after_ingest embeddings [p] w) = files w ∧
  dimension (es (after_ingest embeddings [p] w)) = dimension (es w) ∧
  ∃ c, calls (after_ingest embeddings [p] w) = calls w ++ [c] ∧ is_es_index c.
Proof.
  intros (e & He & Hlen). split_and!; [done..|].
  exists (EsIndex index_name (item_id p.2) (ingest_body p.2 e)). split; [|done].
  unfold after_ingest, planned. simpl. by rewrite He.
Qed.

Lemma for_each_ingest_outcome embeddings rows w :
  files (for_each (ingest_row embeddings) rows w).2 = files w ∧
  dimension (es (for_each (ingest_row embeddings) rows w).2) = dimension (es w) ∧
  (∃ tail, calls (for_each (ingest_row embeddings) rows w).2 = calls w ++ tail ∧
           Forall is_es_index tail ∧ (length tail ≤ length rows)%nat) ∧
  match (for_each (ingest_row embeddings) rows w).1 with
  | Ok _ => True
  | Raise e =>
      ∃ p, p ∈ rows ∧
           ((embeddings !! p.1 = None ∧ e = IndexError) ∨
            (∃ v, embeddings !! p.1 = Some v ∧ length v ≠ dimension (es w) ∧
                  e = DimensionMismatch))
  end.
Proof.
  revert w. induction rows as [|p rows IH]; intros w.
  { simpl. split_and!; [done..| |done]. exists []. split_and!; [|constructor|done].
    by rewrite (right_id_L [] (++)). }
  cbn [for_each]. unfold mbind, M_bind.
  pose proof (ingest_row_spec embeddings p w) as Hrow.
  destruct (embeddings !! p.1) as [e|] eqn:He.
  - destruct (decide (length e = dimension (es w))) as [Hlen|Hlen].
    + rewrite Hrow.
      destruct (after_ingest_one_frame embeddings p w) as (Hf & Hd & c & Hc & Hidx);
        [by exists e|].
      destruct (IH (after_ingest embeddings [p] w)) as (Hf' & Hd' & (tail & Ht & Hall & Hn) & Hres).
      split_and!.
      * by rewrite Hf'.
      * by rewrite Hd'.
      * exists (c :: tail). split_and!.
        -- rewrite Ht, Hc. by rewrite <-(assoc_L (++)).
        -- by constructor.
        -- simpl. lia.
      * destruct (for_each _ rows _).1 as [|err]; [done|].
        destruct Hres as (q & Hq & Hcase). exists q. split; [by right|].
        by rewrite <-Hd.
    + rewrite Hrow. simpl. split_and!; [done..| |].
      * eexists [_]. split_and!; [done|by repeat constructor|simpl; lia].
      * exists p. split; [by left|]. right. by exists e.
  - rewrite Hrow. simpl. split_and!; [done..| |].
    + exists []. split_and!; [by rewrite (right_id_L [] (++))|constructor|simpl; lia].
    + exists p. split; [by left|]. by left.
Qed.

(** The calls of a run over rows numbered from [start], whatever its
    outcome. *)
Lemma for_each_ingest_calls embeddings rows start w :
  ∃ tail,
    calls (for_each (ingest_row embeddings) (iterrows_from start rows) w).2
    = calls w ++ tail ∧
    (∀ idx c, tail !! idx = Some c →
       ∃ record e, rows !! idx = Some record ∧ embeddings !! (start + idx) = Some e ∧
                   c = EsIndex index_name (item_id record) (ingest_body record e)) ∧
    match (for_each (ingest_row embeddings) (iterrows_from start rows) w).1 with
    | Ok _ => length tail = length rows
    | Raise err =>
        (err = IndexError ∧ embeddings !! (start + length tail) = None ∧
         (length tail < length rows)%nat) ∨
        (err = DimensionMismatch ∧
         ∃ idx v, length tail = S idx ∧ (idx < length rows)%nat ∧
                  embeddings !! (start + idx) = Some v ∧ length v ≠ dimension (es w))
    end.
Proof.
  revert start w. induction rows as [|r rows IH]; intros start w.
  { exists []. simpl. split_and!; [by rewrite (right_id_L [] (++))| |done].
    intros idx c Hc. by rewrite lookup_nil in Hc. }
  rewrite iterrows_from_cons. cbn [for_each]. unfold mbind, M_bind.
  rewrite ingest_row_spec. cbn [fst snd].
  destruct (embeddings !! start) as [e|] eqn:He.
  - destruct (decide (length e = dimension (es w))) as [Hlen|Hlen].
    + set (w1 := after_ingest embeddings [(start, r)] w).
      assert (calls w1 = calls w ++ [EsIndex index_name (item_id r) (ingest_body r e)])
        as Hcalls by (unfold w1, after_ingest, planned; simpl; by rewrite He).
      assert (dimension (es w1) = dimension (es w)) as Hdim by done.
      destruct (IH (S start) w1) as (tail & Ht & Hrows & Hres).
      exists (EsIndex index_name (item_id r) (ingest_body r e) :: tail). split_and!.
      * rewrite Ht, Hcalls. by rewrite <-(assoc_L (++)).
      * intros [|idx] c Hc; simpl in Hc.
        -- injection Hc as <-. exists r, e. by rewrite Nat.add_0_r.
        -- destruct (Hrows idx c Hc) as (record & e' & ? & ? & ?).
           exists record, e'. by rewrite <-Nat.add_succ_comm.
      * destruct (for_each _ _ w1).1 as [|err]; simpl; [by f_equal|].
        destruct Hres as [(-> & Hnone & Hlt)|(-> & idx & v & Htail & Hlt & Hv & Hne)].
        -- left. split_and!; [done| |lia]. by rewrite <-Nat.add_succ_comm.
        -- right. split; [done|]. exists (S idx), v.
           split_and!; [by f_equal|lia| |congruence]. by rewrite <-Nat.add_succ_comm.
    + exists [EsIndex index_name (item_id r) (ingest_body r e)]. simpl.
      split_and!; [done| |].
      * intros [|idx] c Hc; simpl in Hc; [|by rewrite lookup_nil in Hc].
        injection Hc as <-. exists r, e. by rewrite Nat.add_0_r.
      * right. split; [done|]. exists 0%nat, e. rewrite Nat.add_0_r.
        split_and!; [done|lia|done..].
  - exists []. simpl. split_and!; [by rewrite (right_id_L [] (++))| |].
    + intros idx c Hc. by rewrite lookup_nil in Hc.
    + left. rewrite Nat.add_0_r. split_and!; [done..|lia].
Qed.

(** X10. Whatever its outcome, the ingestion loop writes no file and makes
    no call but [es.index], in the order of the rows: the call number [idx]
    is the one for row [idx] of [dataset], with [embeddings[idx]]. When the
    loop completes there is one call per row. When it raises [IndexError]
    at a row without embedding, the calls are those for the rows before it;
    when it raises the store's [DimensionMismatch], the last call is the one
    for the row whose embedding has the wrong length. In both cases no call
    is made for a row after the one at which it raised. *)
Theorem ingestion_only_indexes
    (dataset : list row) (embeddings : list vector) (w : world) :
  files (ingest_data_into_es dataset embeddings w).2 = files w ∧
  ∃ tail,
    calls (ingest_data_into_es dataset embeddings w).2 = calls w ++ tail ∧
    (∀ idx c, tail !! idx = Some c →
       ∃ record e, dataset !! idx = Some record ∧ embeddings !! idx = Some e ∧
                   c = EsIndex index_name (item_id record) (ingest_body record e)) ∧
    match (ingest_data_into_es dataset embeddings w).1 with
    | Ok _ => length tail = length dataset
    | Raise err =>
        (err = IndexError ∧ embeddings !! length tail = None ∧
         (length tail < length dataset)%nat) ∨
        (err = DimensionMismatch ∧
         ∃ idx v, length tail = S idx ∧ (idx < length dataset)%nat ∧
                  embeddings !! idx = Some v ∧ length v ≠ dimension (es w))
    end.
Proof.
  unfold ingest_data_into_es.
  destruct (for_each_ingest_outcome embeddings (iterrows dataset) w) as (Hf & _).
  split; [done|]. rewrite iterrows_from_0.
  apply (for_each_ingest_calls embeddings dataset 0 w).
Qed.

(** The run that stops at the rose, whose embedding is too short: the one
    call made is the one for the rose, and the broom and the pizza are not
    sent. *)
Example truncated_run_calls :
  (ingest_data_into_es catalogue truncated_embeddings fresh_world).1
  = Raise DimensionMismatch ∧
  calls (ingest_data_into_es catalogue truncated_embeddings fresh_world).2
  = [EsIndex index_name "B07ROSE" (ingest_body rose [qc 1])].
Proof. split; by vm_compute. Qed.

(** X11. With the [embeddings] the loading loop has filled for [dataset], the
    ingestion loop never raises [IndexError]: it completes when every
    embedding has the dimension of the index, and otherwise raises the
    store's [DimensionMismatch] for an embedding that has not. *)
Theorem loaded_embeddings_cover_dataset
    (json_load : bytes → result (list vector)) (dataset : list row)
    (old embeddings : list vector) (w w' w0 : world) :
  load_embeddings json_load dataset (w, old) = (Ok tt, (w', embeddings)) →
  (Forall (λ v, length v = dimension (es w0)) embeddings →
   (ingest_data_into_es dataset embeddings w0).1 = Ok tt) ∧
  ((ingest_data_into_es dataset embeddings w0).1 ≠ Ok tt →
   (ingest_data_into_es dataset embeddings w0).1 = Raise DimensionMismatch ∧
   ∃ v, v ∈ embeddings ∧ length v ≠ dimension (es w0)).
Proof.
  intros [Hload _]%load_embeddings_ok_iff. apply Forall2_length in Hload as Hlen.
  assert (∀ p, p ∈ iterrows dataset → is_Some (embeddings !! p.1)) as Hcover.
  { intros [i r] Hi%iterrows_elem_of. simpl. apply lookup_lt_is_Some.
    apply lookup_lt_Some in Hi. lia. }
  unfold ingest_data_into_es. split.
  - intros Hdim. rewrite for_each_ingest; [done|].
    apply Forall_forall. intros p Hp. destruct (Hcover p Hp) as [v Hv].
    exists v. split; [done|]. rewrite Forall_forall in Hdim.
    by eapply Hdim, list_elem_of_lookup_2.
  - destruct (for_each_ingest_outcome embeddings (iterrows dataset) w0)
      as (_ & _ & _ & Hres).
    destruct (for_each _ _ w0).1 as [[]|e]; [done|]. intros _.
    destruct Hres as (p & Hp & [[Hnone ->]|(v & Hv & Hne & ->)]).
    + destruct (Hcover p Hp) as [v Hv]. congruence.
    + split; [done|]. exists v. split; [|done]. by eapply list_elem_of_lookup_2.
Qed.

Lemma loaded_embeddings_cover_dataset_witness :
  (Forall (λ v, length v = dimension (es fresh_world)) catalogue_embeddings →
   (ingest_data_into_es catalogue catalogue_embeddings fresh_world).1 = Ok tt) ∧
  ((ingest_data_into_es catalogue catalogue_embeddings fresh_world).1 ≠ Ok tt →
   (ingest_data_into_es catalogue catalogue_embeddings fresh_world).1
   = Raise DimensionMismatch ∧
   ∃ v, v ∈ catalogue_embeddings ∧ length v ≠ dimension (es fresh_world)).
Proof.
  apply (loaded_embeddings_cover_dataset example_json_load catalogue []
           catalogue_embeddings transformed_world transformed_world fresh_world).
  by vm_compute.
Defined.

(** ** Showing the results *)

Lemma int_div_plus_one (n c : Z) :
  (0 ≤ n)%Z → (0 < c)%Z → int (inject_Z n / inject_Z c + 1) = (n / c + 1)%Z.
Proof.
  intros Hn Hc.
  assert (¬ (inject_Z c == 0)%Q) as Hc0.
  { intros H. unfold Qeq in H. simpl in H. lia. }
  assert ((inject_Z n / inject_Z c + 1 == inject_Z (n + c) / inject_Z c)%Q) as Heq.
  { rewrite inject_Z_plus. field. done. }
  unfold int. rewrite Heq.
  assert (Qle_bool 0 (inject_Z (n + c) / inject_Z c) = true) as ->.
  { apply Qle_bool_iff. apply Qle_shift_div_l.
    - unfold Qlt. simpl. lia.
    - unfold Qle. simpl. lia. }
  rewrite (Qfloor_comp _ _ Heq), <-Zdiv_Qdiv. replace (n + c)%Z with (n + 1 * c)%Z by lia.
  rewrite Z.div_add by lia. done.
Qed.

Lemma show_image_spec n columns label_font_size p shown :
  (0 < columns)%Z → (Z.of_nat p.1 < n)%Z →
  show_image n columns label_font_size p shown
  = (Ok tt, shown ++ drawing n columns label_font_size p.1 p.2).
Proof.
  intros Hcol Hp. unfold show_image, plt_subplot.
  rewrite int_div_plus_one by lia. rewrite decide_True.
  - unfold drawing, emit, modify, mbind, M_bind, mret, M_ret. simpl.
    rewrite int_div_plus_one by lia.
    destruct (name_and_score p.2); simpl; by rewrite <-?(assoc_L (++)).
  - pose proof (Z.mod_pos_bound n columns Hcol).
    pose proof (Z.div_mod n columns).
    assert (0 ≤ n / columns)%Z by (apply Z.div_pos; lia).
    split_and!; [lia..|nia].
Qed.

Lemma show_images_from n columns label_font_size start images shown :
  (0 < columns)%Z → (Z.of_nat (start + length images) ≤ n)%Z →
  for_each (show_image n columns label_font_size)
    (imap (λ i, pair (start + i)%nat) images) shown
  = (Ok tt,
     shown ++ concat (imap (λ i, drawing n columns label_font_size (start + i)) images)).
Proof.
  intros Hcol. revert start shown.
  induction images as [|image images IH]; intros start shown Hn.
  - simpl. by rewrite (right_id_L [] (++)).
  - rewrite !imap_cons. cbn [for_each concat]. simpl in Hn.
    erewrite bind_ok by (apply show_image_spec; [done|simpl; lia]). cbn [fst snd].
    rewrite (imap_ext _ (λ i, pair (S start + i)%nat))
      by (intros; simpl; f_equal; lia).
    rewrite IH by lia. rewrite <-(assoc_L (++)). do 4 f_equal.
    apply imap_ext. intros; simpl; f_equal; lia.
Qed.

(** What [display_images] does with a list that is not empty, when there
    are no columns. *)
Lemma display_images_no_column images width height max_images
    label_wrap_length label_font_size shown :
  images ≠ [] →
  display_images images 0 width height max_images label_wrap_length
    label_font_size shown
  = (Raise ZeroDivisionError, shown ++ notice images max_images).
Proof.
  intros Hne. unfold display_images, notice.
  destruct images as [|image images]; [done|].
  set (all := image :: images).
  unfold emit, modify, mbind, M_bind, mret, M_ret, raise.
  destruct (decide (max_images < Z.of_nat (length all))%Z); simpl; [done|].
  by rewrite (right_id_L [] (++)).
Qed.

(** What it does with a positive number of columns. *)
Lemma display_images_draws images columns width height max_images
    label_wrap_length label_font_size shown :
  images ≠ [] → (0 < columns)%Z →
  display_images images columns width height max_images label_wrap_length
    label_font_size shown
  = let kept := kept_images images max_images in
    let n := Z.of_nat (length kept) in
    let h := Z.max height (int (inject_Z n / inject_Z columns) * height) in
    if decide (width < 0 ∨ h < 0)%Z
    then (Raise ValueError, shown ++ notice images max_images)
    else (Ok tt,
          shown ++ notice images max_images
          ++ PltFigure width h :: concat (imap (drawing n columns label_font_size) kept)).
Proof.
  intros Hne Hcol. unfold display_images, kept_images, notice.
  destruct images as [|image images]; [done|].
  set (all := image :: images).
  unfold plt_figure, emit, modify, mbind, M_bind, mret, M_ret, raise.
  destruct (decide (max_images < Z.of_nat (length all))%Z); simpl.
  - rewrite decide_False by lia. case_decide; [done|].
    pose proof (show_images_from (Z.of_nat (length (slice_to all max_images))) columns
                  label_font_size 0 (slice_to all max_images)) as Hshow.
    simpl in Hshow. rewrite Hshow by lia. by rewrite <-!(assoc_L (++)).
  - rewrite decide_False by lia. case_decide; [by rewrite (right_id_L [] (++))|].
    pose proof (show_images_from (Z.of_nat (length all)) columns
                  label_font_size 0 all) as Hshow.
    simpl in Hshow. rewrite Hshow by lia. by rewrite <-!(assoc_L (++)).
Qed.

Section Drawings.
Variables n columns label_font_size : Z.

Local Abbreviation drawings start images :=
  (concat (imap (λ i, drawing n columns label_font_size (start + i)) images)).

Lemma drawings_cons start image images :
  drawings start (image :: images)
  = drawing n columns label_font_size start image ++ drawings (S start) images.
Proof.
  rewrite imap_cons. cbn [concat]. rewrite Nat.add_0_r. do 2 f_equal.
  apply imap_ext. intros; simpl; f_equal; lia.
Qed.

Lemma shown_pictures_drawings start images :
  shown_pictures (drawings start images) = images.
Proof.
  revert start. induction images as [|image images IH]; intros start; [done|].
  rewrite drawings_cons. unfold shown_pictures in *. rewrite omap_app, IH.
  unfold drawing. destruct (name_and_score image); reflexivity.
Qed.

Lemma shown_titles_drawings start images :
  shown_titles (drawings start images) = omap name_and_score images.
Proof.
  revert start. induction images as [|image images IH]; intros start; [done|].
  rewrite drawings_cons. unfold shown_titles in *. rewrite omap_app, IH.
  unfold drawing. simpl. destruct (name_and_score image); reflexivity.
Qed.

Lemma figures_drawings start images : figures (drawings start images) = [].
Proof.
  revert start. induction images as [|image images IH]; intros start; [done|].
  rewrite drawings_cons. unfold figures in *. rewrite omap_app, IH.
  unfold drawing. destruct (name_and_score image); reflexivity.
Qed.

Lemma subplots_drawings start images s :
  s ∈ subplots (drawings start images) →
  ∃ i, (i < length images)%nat ∧
       s = (int (inject_Z n / inject_Z columns + 1), columns,
            (Z.of_nat (start + i) + 1)%Z).
Proof.
  revert start. induction images as [|image images IH]; intros start.
  { by intros ?%elem_of_nil. }
  rewrite drawings_cons. unfold subplots in *. rewrite omap_app.
  intros [Hs|Hs]%elem_of_app.
  - exists 0%nat. split; [simpl; lia|]. rewrite Nat.add_0_r.
    unfold drawing in Hs. destruct (name_and_score image); simpl in Hs;
      by apply list_elem_of_singleton in Hs.
  - destruct (IH _ Hs) as (i & Hi & ->). exists (S i). split; [simpl; lia|].
    do 2 f_equal. lia.
Qed.

(** What can be read off the events of a call that draws. *)
Lemma display_events_read images max_images w h kept :
  shown_pictures (notice images max_images
                  ++ PltFigure w h :: concat (imap (drawing n columns label_font_size) kept))
  = kept ∧
  shown_titles (notice images max_images
                ++ PltFigure w h :: concat (imap (drawing n columns label_font_size) kept))
  = omap name_and_score kept ∧
  figures (notice images max_images
           ++ PltFigure w h :: concat (imap (drawing n columns label_font_size) kept))
  = [(w, h)] ∧
  ∀ s, s ∈ subplots (notice images max_images
                     ++ PltFigure w h
                     :: concat (imap (drawing n columns label_font_size) kept)) →
       ∃ i, (i < length kept)%nat ∧
            s = (int (inject_Z n / inject_Z columns + 1), columns, (Z.of_nat i + 1)%Z).
Proof.
  pose proof (shown_pictures_drawings 0 kept) as Hp.
  pose proof (shown_titles_drawings 0 kept) as Ht.
  pose proof (figures_drawings 0 kept) as Hf.
  pose proof (subplots_drawings 0 kept) as Hs.
  unfold notice, shown_pictures, shown_titles, figures, subplots in *.
  case_decide; rewrite ?omap_app; cbn [omap list_omap app];
    (split_and!; [exact Hp|exact Ht|by f_equal|exact Hs]).
Qed.
End Drawings.

Lemma notice_draws_nothing images max_images :
  shown_pictures (notice images max_images) = [] ∧
  shown_titles (notice images max_images) = [] ∧
  figures (notice images max_images) = [] ∧
  subplots (notice images max_images) = [].
Proof. unfold notice. by case_decide. Qed.

Lemma kept_images_take images max_images :
  (0 ≤ max_images)%Z → kept_images images max_images = take (Z.to_nat max_images) images.
Proof.
  intros Hmax. unfold kept_images, slice_to. case_decide.
  - by rewrite decide_True.
  - rewrite take_ge; [done|lia].
Qed.

(** X12. For a list of pictures that is not empty, a positive number of
    columns, a positive width and height and [max_images] at least zero,
    [display_images] returns normally after it opened one figure and showed
    the first [max_images] pictures of the list (all of them when there are
    no more), in their order; the titles it set are the [name_and_score] of
    the shown pictures that have one. *)
Theorem display_images_shows_first_pictures
    (images : list PilImage)
    (columns width height max_images label_wrap_length label_font_size : Z)
    (shown : list display_event) :
  images ≠ [] → (0 < columns)%Z → (0 ≤ max_images)%Z →
  (0 < width)%Z → (0 < height)%Z →
  ∃ events,
    display_images images columns width height max_images label_wrap_length
      label_font_size shown = (Ok tt, shown ++ events) ∧
    shown_pictures events = take (Z.to_nat max_images) images ∧
    shown_titles events = omap name_and_score (take (Z.to_nat max_images) images) ∧
    length (figures events) = 1%nat.
Proof.
  intros Hne Hcol Hmax Hwidth Hheight. rewrite display_images_draws by done. simpl.
  rewrite decide_False by lia. eexists. split; [done|].
  match goal with |- context [PltFigure ?w ?h :: concat (imap (drawing ?n _ _) ?kept)] =>
    destruct (display_events_read n columns label_font_size images max_images w h kept)
      as (Hp & Ht & Hf & _)
  end.
  rewrite Hp, Ht, Hf, kept_images_take by done. done.
Qed.

Lemma display_images_shows_first_pictures_witness :
  ∃ events,
    display_images
      [ {| content := "a"; name_and_score := Some "1.0:red rose" |};
        {| content := "b"; name_and_score := None |};
        {| content := "c"; name_and_score := Some "0.5:pizza" |} ]
      2 20 8 2 50 8 [] = (Ok tt, [] ++ events) ∧
    shown_pictures events
    = take (Z.to_nat 2)
        [ {| content := "a"; name_and_score := Some "1.0:red rose" |};
          {| content := "b"; name_and_score := None |};
          {| content := "c"; name_and_score := Some "0.5:pizza" |} ] ∧
    shown_titles events
    = omap name_and_score
        (take (Z.to_nat 2)
           [ {| content := "a"; name_and_score := Some "1.0:red rose" |};
             {| content := "b"; name_and_score := None |};
             {| content := "c"; name_and_score := Some "0.5:pizza" |} ]) ∧
    length (figures events) = 1%nat.
Proof.
  apply (display_images_shows_first_pictures
           [ {| content := "a"; name_and_score := Some "1.0:red rose" |};
             {| content := "b"; name_and_score := None |};
             {| content := "c"; name_and_score := Some "0.5:pizza" |} ]
           2 20 8 2 50 8 []); [done|lia..].
Defined.

(** With a negative number of columns the first [plt.subplot] is refused:
    the figure is open and no picture is shown. *)
Example display_images_negative_columns :
  display_images [ {| content := "a"; name_and_score := None |};
                   {| content := "b"; name_and_score := None |};
                   {| content := "c"; name_and_score := None |} ] (-2) 20 8 15 50 8 []
  = (Raise ValueError, [PltFigure 20 8]).
Proof. by vm_compute. Qed.

(** X13. With [columns = 0] and a list that is not empty, [display_images]
    raises [ZeroDivisionError] when it computes the height of the figure:
    no figure is opened and no picture is shown. *)
Theorem display_images_zero_columns
    (images : list PilImage)
    (width height max_images label_wrap_length label_font_size : Z)
    (shown : list display_event) :
  images ≠ [] →
  ∃ events,
    display_images images 0 width height max_images label_wrap_length
      label_font_size shown = (Raise ZeroDivisionError, shown ++ events) ∧
    figures events = [] ∧ shown_pictures events = [] ∧ subplots events = [].
Proof.
  intros Hne. rewrite display_images_no_column by done.
  exists (notice images max_images). split; [done|].
  destruct (notice_draws_nothing images max_images) as (Hp & Ht & Hf & Hs). done.
Qed.

Lemma display_images_zero_columns_witness :
  ∃ events,
    display_images [ {| content := "a"; name_and_score := None |} ] 0 20 8 15 50 8 []
    = (Raise ZeroDivisionError, [] ++ events) ∧
    figures events = [] ∧ shown_pictures events = [] ∧ subplots events = [].
Proof.
  apply (display_images_zero_columns [ {| content := "a"; name_and_score := None |} ]
           20 8 15 50 8 []).
  done.
Defined.

(** X14. With a positive number of columns, the grid [display_images] asks
    for holds every picture it shows: each [plt.subplot(nrows, ncols, index)]
    it calls has [ncols = columns], the same [nrows] (the number of pictures
    shown divided by [columns], rounded down, plus one) and an [index] from 1
    to [nrows * ncols], so matplotlib refuses none of them. The call returns
    normally when width and height are positive; the one other outcome is
    the [ValueError] of [plt.figure] for a negative size, before any
    [plt.subplot]. *)
Theorem display_images_grid_holds_every_picture
    (images : list PilImage)
    (columns width height max_images label_wrap_length label_font_size : Z)
    (shown : list display_event) :
  images ≠ [] → (0 < columns)%Z →
  ∃ outcome events,
    display_images images columns width height max_images label_wrap_length
      label_font_size shown = (outcome, shown ++ events) ∧
    ((0 < width)%Z → (0 < height)%Z → outcome = Ok tt) ∧
    (outcome = Ok tt ∨ outcome = Raise ValueError ∧ subplots events = []) ∧
    ∀ nrows ncols index,
      (nrows, ncols, index) ∈ subplots events →
      ncols = columns ∧
      nrows = (Z.of_nat (length (shown_pictures events)) / columns + 1)%Z ∧
      (1 ≤ index ≤ nrows * ncols)%Z.
Proof.
  intros Hne Hcol. rewrite display_images_draws by done. simpl.
  destruct (notice_draws_nothing images max_images) as (_ & _ & _ & Hnone).
  case_decide as Hsize.
  { exists (Raise ValueError), (notice images max_images).
    split_and!; [done|lia|by right|]. rewrite Hnone. by intros ??? ?%elem_of_nil. }
  eexists (Ok tt), _. split_and!; [done|done|by left|].
  match goal with |- context [PltFigure ?w ?h :: concat (imap (drawing ?n _ _) ?kept)] =>
    destruct (display_events_read n columns label_font_size images max_images w h kept)
      as (Hp & _ & _ & Hs); set (k := kept) in *
  end.
  rewrite Hp. intros nrows ncols index (i & Hi & [= -> -> ->])%Hs.
  rewrite int_div_plus_one by lia. split_and!; [done..|lia|].
  pose proof (Z.mod_pos_bound (Z.of_nat (length k)) columns Hcol).
  pose proof (Z.div_mod (Z.of_nat (length k)) columns). nia.
Qed.

Lemma display_images_grid_holds_every_picture_witness :
  ∃ outcome events,
    display_images
      [ {| content := "a"; name_and_score := None |};
        {| content := "b"; name_and_score := None |};
        {| content := "c"; name_and_score := None |} ]
      2 20 8 15 50 8 [] = (outcome, [] ++ events) ∧
    ((0 < 20)%Z → (0 < 8)%Z → outcome = Ok tt) ∧
    (outcome = Ok tt ∨ outcome = Raise ValueError ∧ subplots events = []) ∧
    ∀ nrows ncols index,
      (nrows, ncols, index) ∈ subplots events →
      ncols = 2%Z ∧
      nrows = (Z.of_nat (length (shown_pictures events)) / 2 + 1)%Z ∧
      (1 ≤ index ≤ nrows * ncols)%Z.
Proof.
  apply (display_images_grid_holds_every_picture
           [ {| content := "a"; name_and_score := None |};
             {| content := "b"; name_and_score := None |};
             {| content := "c"; name_and_score := None |} ]
           2 20 8 15 50 8 []); [done|lia].
Defined.

(** ** Searching, then showing *)

Lemma omap_all_some {A B} (f : A → option B) (l : list A) :
  Forall (λ x, is_Some (f x)) l → length (omap f l) = length l.
Proof.
  induction 1 as [|x l [y Hy] _ IH]; [done|]. simpl. rewrite Hy. simpl. f_equal.
  exact IH.
Qed.

Lemma enriched_images_labelled dataset DataFrame_query s3_objects Path_name float_str
    hits images :
  Forall2 (enriched_from dataset DataFrame_query s3_objects Path_name float_str)
    hits images →
  Forall (λ img, is_Some (name_and_score img)) images.
Proof.
  induction 1 as [|h img hits images (r & _ & Hlabel & _) _ IH]; constructor; [|done].
  by rewrite Hlabel.
Qed.

(** X15. The pictures [search_products] returns all carry a
    [name_and_score], so [display_images] with its defaults sets a title for
    every picture it shows; it shows the first fifteen results, which is all
    of them when [k] is at most 15. *)
Theorem search_results_are_shown_with_titles
    (dataset : list row) (DataFrame_query : string → list row → result (list nat))
    (s3_objects : string → option bytes)
    (Path_name : string → string) (float_str : Qc → string)
    (cosinesimil : vector → vector → Qc) (pil_identify : bytes → bool)
    (embedding : vector) (k : Z) (w : world) (images : list PilImage) (w' : world)
    (shown : list display_event) :
  search_products dataset DataFrame_query s3_objects Path_name float_str cosinesimil
    pil_identify embedding k w = (Ok images, w') →
  images ≠ [] →
  ∃ events,
    display_images_defaults images shown = (Ok tt, shown ++ events) ∧
    shown_pictures events = take 15 images ∧
    length (shown_titles events) = length (shown_pictures events) ∧
    ((k ≤ 15)%Z → shown_pictures events = images).
Proof.
  rewrite search_products_unfold. simpl.
  destruct (knn_query _ _ _) as [hits|e] eqn:Hq; [|done]. intros Hloop Hne.
  pose proof (for_collect_length _ _ _ _ _ Hloop) as Hlen.
  apply for_collect_enrich_inv in Hloop as [Hall%enriched_images_labelled _].
  apply knn_query_hits in Hq as (Hsize & _). simpl in Hsize.
  unfold display_images_defaults. rewrite display_images_draws by (done || lia). simpl.
  rewrite decide_False by lia.
  eexists. split; [done|].
  match goal with |- context [PltFigure ?wd ?h :: concat (imap (drawing ?n _ _) ?kept)] =>
    destruct (display_events_read n 2 8 images 15 wd h kept) as (Hp & Ht & _)
  end.
  rewrite Hp, Ht, (kept_images_take images 15) by lia.
  change (Z.to_nat 15) with 15%nat. split_and!; [done| |].
  - apply omap_all_some. by apply Forall_take.
  - intros Hk. apply take_ge. lia.
Qed.

Lemma search_results_are_shown_with_titles_witness :
  ∃ events,
    display_images_defaults
      [ {| content := "JPEG s3://amazon-berkeley-objects/images/small/0e/rose.jpg";
           name_and_score := Some "1/1:red rose" |};
        {| content := "JPEG s3://amazon-berkeley-objects/images/small/2a/pizza.jpg";
           name_and_score := Some "1/1:pizza" |} ] []
    = (Ok tt, [] ++ events) ∧
    shown_pictures events
    = take 15
        [ {| content := "JPEG s3://amazon-berkeley-objects/images/small/0e/rose.jpg";
             name_and_score := Some "1/1:red rose" |};
          {| content := "JPEG s3://amazon-berkeley-objects/images/small/2a/pizza.jpg";
             name_and_score := Some "1/1:pizza" |} ] ∧
    length (shown_titles events) = length (shown_pictures events) ∧
    ((2 ≤ 15)%Z →
     shown_pictures events
     = [ {| content := "JPEG s3://amazon-berkeley-objects/images/small/0e/rose.jpg";
            name_and_score := Some "1/1:red rose" |};
         {| content := "JPEG s3://amazon-berkeley-objects/images/small/2a/pizza.jpg";
            name_and_score := Some "1/1:pizza" |} ]).
Proof.
  apply (search_results_are_shown_with_titles catalogue example_query bucket basename
           fraction_str dot_product (λ _, true) [qc 1; qc 0] 2 ingested_world _
           (example_search catalogue [qc 1; qc 0] 2 ingested_world).2 []).
  - by vm_compute.
  - done.
Defined.

(** X16. When the index answers with a hit for whose id the query selects
    no row of [dataset], as for an id of printable ASCII characters other
    than the quote and the backslash that no row carries where pandas
    compares the column to the literal,
    [search_products] raises [IndexError] and returns no result, not even
    for the hits before it, whose pictures it has downloaded by then; the
    hits after it are not looked at. *)
Theorem search_products_stops_at_unlisted_hit
    (dataset : list row) (DataFrame_query : string → list row → result (list nat))
    (s3_objects : string → option bytes)
    (Path_name : string → string) (float_str : Qc → string)
    (cosinesimil : vector → vector → Qc) (pil_identify : bytes → bool)
    (embedding : vector) (k : Z) (w : world) (pre : list hit) (h : hit)
    (post : list hit) :
  knn_query cosinesimil (search_request embedding k) (es w) = Ok (pre ++ h :: post) →
  Forall (λ h, servable dataset DataFrame_query s3_objects Path_name pil_identify (_id h))
    pre →
  DataFrame_query (item_id_query (_id h)) dataset = Ok [] ∨
  (query_selects DataFrame_query ∧ literal (_id h) ∧ _id h ∉ item_id <$> dataset) →
  ∃ w' tail,
    search_products dataset DataFrame_query s3_objects Path_name float_str cosinesimil
      pil_identify embedding k w = (Raise IndexError, w') ∧
    calls w' = calls w ++ EsSearch index_name (search_request embedding k) :: tail ∧
    Forall2 (download_for dataset DataFrame_query) pre tail.
Proof.
  intros Hq Hpre Hunlisted.
  assert (queried_row dataset DataFrame_query (_id h) = Raise IndexError) as Hrow.
  { destruct Hunlisted as [Hnone|(Hquery & Hlit & Hni)].
    - unfold queried_row. by rewrite Hnone.
    - rewrite queried_row_literal by done. by rewrite list_find_absent_id. }
  rewrite search_products_unfold, Hq. simpl.
  rewrite for_collect_app.
  match goal with |- context [for_collect ?f pre ?w1] =>
    destruct (for_collect_enrich_ok dataset DataFrame_query s3_objects Path_name
                float_str pil_identify pre w1 Hpre) as (imgs & w2 & Hloop)
  end.
  rewrite Hloop. simpl.
  erewrite bind_raise by (rewrite enrich_spec, Hrow; reflexivity).
  apply for_collect_enrich_inv in Hloop as (_ & tail & Hcalls & Htail).
  exists w2, tail. split_and!; [done| |done].
  rewrite Hcalls. simpl. by rewrite <-(assoc_L (++)).
Qed.

(** The rose has left the catalogue; the index still holds it and ranks it
    first. *)
Lemma search_products_stops_at_unlisted_hit_witness :
  ∃ w' tail,
    example_search [broom; pizza] [qc 1; qc 0] 3 ingested_world = (Raise IndexError, w') ∧
    calls w' = calls ingested_world
               ++ EsSearch index_name (search_request [qc 1; qc 0] 3) :: tail ∧
    Forall2 (download_for [broom; pizza] example_query) [] tail.
Proof.
  eapply (search_products_stops_at_unlisted_hit [broom; pizza] example_query bucket
            basename fraction_str dot_product (λ _, true) [qc 1; qc 0] 3
            ingested_world []).
  - vm_compute. reflexivity.
  - constructor.
  - right. split_and!.
    + apply example_query_selects.
    + reflexivity.
    + apply (bool_decide_unpack _). by vm_compute.
Defined.

(** ** The copy for the batch job *)

(** X17. The loop that prepares the copy builds one argument per row of
    [dataset], in order. The [source] of a row is the bucket and key of the
    object that [get_image_from_item_id] downloads for the row, without the
    [s3://] scheme; target bucket and key prefix are the same for all rows
    and the target key ends with the row's [path]. *)
Theorem upload_arguments_name_the_catalogue_objects
    (s3_bucket_name : string) (urlparse_netloc urlparse_path : string → string)
    (dataset : list row) :
  length (upload_arguments s3_bucket_name urlparse_netloc urlparse_path dataset)
  = length dataset ∧
  ∀ idx record,
    dataset !! idx = Some record →
    ∃ argument,
      upload_arguments s3_bucket_name urlparse_netloc urlparse_path dataset !! idx
      = Some argument ∧
      "s3://" +:+ source argument = s3_data_root +:+ path record ∧
      source argument = "amazon-berkeley-objects/images/small/" +:+ path record ∧
      target_bucket argument = urlparse_netloc ("s3://" +:+ s3_bucket_name +:+ "/sample-images") ∧
      ∃ prefix, target_key argument = prefix +:+ "/" +:+ path record ∧
                ∀ idx' record' argument',
                  dataset !! idx' = Some record' →
                  upload_arguments s3_bucket_name urlparse_netloc urlparse_path dataset
                    !! idx' = Some argument' →
                  target_key argument' = prefix +:+ "/" +:+ path record'.
Proof.
  unfold upload_arguments. split; [apply length_fmap|].
  intros idx record Hidx. eexists. rewrite list_lookup_fmap, Hidx. simpl.
  split_and!; [done..|].
  eexists. split; [done|]. intros idx' record' argument' Hidx'.
  rewrite list_lookup_fmap, Hidx'. by intros [= <-].
Qed.

(** ** The endpoint of the OpenSearch domain *)

Lemma first_value_list_find (outputs : list stack_output) :
  head (OutputValue <$> filter (λ output_, OutputKey output_ = "DomainEndpoint") outputs)
  = (OutputValue ∘ snd) <$> list_find (λ output_, OutputKey output_ = "DomainEndpoint") outputs.
Proof.
  induction outputs as [|o outputs IH]; [done|].
  rewrite filter_cons. cbn [list_find]. case_decide; [done|].
  rewrite IH. by destruct (list_find _ outputs) as [[??]|].
Qed.

(** X18. [opensearch_url] is read from the first stack of the response
    only: it is the value of the first of its outputs whose key is
    [DomainEndpoint]. When that stack has outputs but none with this key, or
    when the response has no stack, the cell raises [IndexError]; when the
    stack has no [Outputs] at all, [KeyError]. *)
Theorem opensearch_url_is_first_domain_endpoint (Stacks : list stack) (url : string) :
  (opensearch_url Stacks = Ok url ↔
   ∃ first_stack rest outputs i output_,
     Stacks = first_stack :: rest ∧ Outputs first_stack = Some outputs ∧
     outputs !! i = Some output_ ∧
     OutputKey output_ = "DomainEndpoint" ∧ OutputValue output_ = url ∧
     ∀ j output', outputs !! j = Some output' → (j < i)%nat →
                  OutputKey output' ≠ "DomainEndpoint") ∧
  (opensearch_url Stacks = Raise IndexError ↔
   Stacks = [] ∨
   ∃ first_stack rest outputs,
     Stacks = first_stack :: rest ∧ Outputs first_stack = Some outputs ∧
     Forall (λ output_, OutputKey output_ ≠ "DomainEndpoint") outputs) ∧
  (opensearch_url Stacks = Raise (KeyError "Outputs") ↔
   ∃ first_stack rest, Stacks = first_stack :: rest ∧ Outputs first_stack = None).
Proof.
  assert (∀ outputs,
    match OutputValue <$> filter (λ o, OutputKey o = "DomainEndpoint") outputs with
    | value :: _ => Ok value
    | [] => Raise IndexError
    end
    = match list_find (λ o, OutputKey o = "DomainEndpoint") outputs with
      | Some (_, o) => Ok (OutputValue o)
      | None => Raise IndexError
      end) as Hfirst.
  { intros outputs. pose proof (first_value_list_find outputs) as H.
    destruct (OutputValue <$> filter _ outputs) as [|v vs];
      destruct (list_find _ outputs) as [[i o]|]; simpl in H; congruence. }
  unfold opensearch_url. destruct Stacks as [|first_stack rest].
  { split_and!.
    - split; [done|]. by intros (fs & rs & ? & ? & ? & [=] & _).
    - split; [by left|done].
    - split; [done|]. by intros (fs & rs & [=] & _). }
  destruct (Outputs first_stack) as [outputs|] eqn:Hout.
  - rewrite Hfirst. destruct (list_find _ outputs) as [[i o]|] eqn:Hfind.
    + apply list_find_Some in Hfind as Hfound. destruct Hfound as (Hi & Hkey & Hbefore).
      split_and!; split; try done.
      * intros [= <-]. by exists first_stack, rest, outputs, i, o.
      * intros (fs & rs & outs & i' & o' & [= <- <-] & Hout' & Hi' & Hkey' & <- & Hbefore').
        rewrite Hout in Hout'. injection Hout' as <-.
        assert (list_find (λ o, OutputKey o = "DomainEndpoint") outputs = Some (i', o'))
          as Hfind' by (apply list_find_Some; by split_and!).
        congruence.
      * intros [?|(fs & rs & outs & [= <- <-] & Hout' & Hnone)]; [done|].
        rewrite Hout in Hout'. injection Hout' as <-.
        apply (list_find_None (λ o, OutputKey o = "DomainEndpoint")) in Hnone.
        congruence.
      * intros (fs & rs & [= <- <-] & Hnone). congruence.
    + apply list_find_None in Hfind as Hnone. split_and!; split; try done.
      * intros (fs & rs & outs & i' & o' & [= <- <-] & Hout' & Hi' & Hkey' & _).
        rewrite Hout in Hout'. injection Hout' as <-.
        rewrite Forall_forall in Hnone. destruct (Hnone o'); [|done].
        by eapply list_elem_of_lookup_2.
      * intros _. right. by exists first_stack, rest, outputs.
      * intros (fs & rs & [= <- <-] & Hnone'). congruence.
  - split_and!; split; try done.
    + intros (fs & rs & outs & i' & o' & [= <- <-] & Hout' & _). congruence.
    + intros [?|(fs & rs & outs & [= <- <-] & Hout' & _)]; [done|congruence].
    + intros _. by exists first_stack, rest.
Qed.
